(* Verification of kontract.ai: the frontend API client (src/unnamed/part_003),
   the alerts page (src/frontend/src/app/alerts/page.tsx), the contract
   modal (src/unnamed/part_007), and the clause drift pipeline described in
   the specification (segmenter, drift detector, risk classifier), whose
   backend sources are not part of this tree. *)

From Stdlib Require Import List String Ascii ZArith QArith Qround Bool Lia.
Import ListNotations.
Open Scope string_scope.

(* ------------------------------------------------------------------------- *)
(** * API client: [apiFetch] (src/unnamed/part_003, lines 21-64) *)

Module ApiClient.

(** A JSON value as [response.json()] yields it; a number is the double it
    parses to, a rational. An object keeps its members in order. *)
#[local] Set Warnings "-register-all".
Inductive jvalue :=
| VNull
| VBool (b : bool)
| VNumber (n : Q)
| VString (s : string)
| VArray (xs : list jvalue)
| VObject (members : list (string * jvalue)).

(** What [response.json()] produces: a parsed value, or a rejection when the
    body is not valid JSON. *)
Inductive body :=
| BodyJson (j : jvalue)
| BodyInvalid.

Record response := {
  status : Z;
  statusText : string;
  resp_body : body
}.

(** [Response.ok] of the Fetch API: status in 200-299. *)
Definition ok (r : response) : bool :=
  (200 <=? status r)%Z && (status r <=? 299)%Z.

Inductive exn :=
| Error (message : string)
| TypeError
| SyntaxError.

Inductive outcome :=
| Returned (v : option jvalue)   (* [None] is [undefined] *)
| Threw (e : exn).

(** JavaScript [a || b] on a possibly undefined string: [""] and
    [undefined] are falsy. *)
Definition js_or (v : option string) (d : string) : string :=
  match v with
  | Some s => if String.eqb s "" then d else s
  | None => d
  end.

(** Own member [k] of a parsed object: [JSON.parse] keeps the last of
    duplicated names. *)
Definition member (k : string) (ms : list (string * jvalue)) : option jvalue :=
  match find (fun kv => String.eqb (fst kv) k) (rev ms) with
  | Some (_, v) => Some v
  | None => None
  end.

(** Truthiness of a JSON value. *)
Definition truthy (v : jvalue) : bool :=
  match v with
  | VNull => false
  | VBool b => b
  | VNumber n => negb (Qeq_bool n 0)
  | VString s => negb (String.eqb s "")
  | VArray _ | VObject _ => true
  end.

Section ToString.

(** [Number::toString], the ECMAScript formatting of a number. *)
Variable Number_toString : Q -> string.

(** [String(v)] of a JSON value, [None] when it throws a TypeError. An
    array is joined with [","], a null element giving [""]. A parsed object
    with an own [toString] member (never callable) has no primitive value,
    any other object gives ["[object Object]"]. *)
Fixpoint to_js_string (v : jvalue) : option string :=
  match v with
  | VNull => Some "null"
  | VBool b => Some (if b then "true" else "false")
  | VNumber n => Some (Number_toString n)
  | VString s => Some s
  | VArray xs =>
      let fix elems (l : list jvalue) : option (list string) :=
        match l with
        | [] => Some []
        | x :: l' =>
            match (match x with VNull => Some "" | _ => to_js_string x end), elems l' with
            | Some e, Some es => Some (e :: es)
            | _, _ => None
            end
        end in
      match elems xs with
      | Some es => Some (String.concat "," es)
      | None => None
      end
  | VObject ms =>
      if existsb (fun kv => String.eqb (fst kv) "toString") ms then None
      else Some "[object Object]"
  end.

(** [new Error(m)]: the message is [String(m)], or [""] when [m] is
    undefined. *)
Definition new_Error (m : option jvalue) : exn :=
  match m with
  | None => Error ""
  | Some v =>
      match to_js_string v with
      | Some s => Error s
      | None => TypeError
      end
  end.

(** [const error = await response.json().catch(() => ({detail: statusText,
    status}))] followed by the read [error.detail]: [None] when that read
    throws (the body is JSON [null]), otherwise the value of [error.detail]
    ([None] inside is [undefined]). *)
Definition error_detail (r : response) : option (option jvalue) :=
  match resp_body r with
  | BodyInvalid => Some (Some (VString (statusText r)))
  | BodyJson VNull => None
  | BodyJson (VObject ms) => Some (member "detail" ms)
  | BodyJson _ => Some None
  end.

(** [error.detail || 'API request failed'] *)
Definition detail_or_default (d : option jvalue) : jvalue :=
  match d with
  | Some v => if truthy v then v else VString "API request failed"
  | None => VString "API request failed"
  end.

(** The response handling of [apiFetch], after [fetch] resolved. *)
Definition apiFetch (r : response) : outcome :=
  if negb (ok r) then
    match error_detail r with
    | None => Threw TypeError
    | Some d => Threw (new_Error (Some (detail_or_default d)))
    end
  else if (status r =? 204)%Z then Returned None
  else
    match resp_body r with
    | BodyJson j => Returned (Some j)
    | BodyInvalid => Threw SyntaxError
    end.

End ToString.

End ApiClient.

(* ------------------------------------------------------------------------- *)
(** * Alerts page (src/frontend/src/app/alerts/page.tsx, second component) *)

Module AlertsPage.

(** [Alert['status']] as declared in src/unnamed/part_003, line 289. *)
Inductive AlertStatus := pending | sent | acknowledged | resolved.

Definition alert_status_string (s : AlertStatus) : string :=
  match s with
  | pending => "pending"
  | sent => "sent"
  | acknowledged => "acknowledged"
  | resolved => "resolved"
  end.

Definition declared_statuses : list string :=
  map alert_status_string [pending; sent; acknowledged; resolved].

(** The page reads and writes [status] as a plain string. *)
Record alert := {
  alert_id : string;
  change_id : string;
  alert_status : string
}.

(** The request [alertsApi.updateStatus(id, newStatus as any)] sends:
    method, endpoint and the [status] of the JSON body. *)
Record request := {
  method : string;
  endpoint : string;
  body_status : string
}.

Definition updateStatus (id newStatus : string) : request :=
  {| method := "PATCH"; endpoint := "/api/alerts/" ++ id;
     body_status := newStatus |}.

(** [handleStatusUpdate(id, newStatus)] mutates with [updateStatus]. *)
Definition handleStatusUpdate (id newStatus : string) : request :=
  updateStatus id newStatus.

(** The status buttons rendered for an alert, as (label, status passed to
    [handleStatusUpdate]); only pending alerts get them. *)
Definition status_buttons (a : alert) : list (string * string) :=
  if String.eqb (alert_status a) "pending"
  then [("Mark as Sent", "sent"); ("Mark as Failed", "failed")]
  else [].

(** Pressing the button labelled [label] on alert [a]. *)
Definition press (a : alert) (label : string) : option request :=
  match find (fun b => String.eqb (fst b) label) (status_buttons a) with
  | Some (_, st) => Some (handleStatusUpdate (alert_id a) st)
  | None => None
  end.

Record stats := {
  total : nat;
  st_pending : nat;
  st_sent : nat;
  st_failed : nat
}.

Definition count_status (s : string) (alerts : list alert) : nat :=
  List.length (filter (fun a => String.eqb (alert_status a) s) alerts).

(** The [stats] memo of the page. *)
Definition page_stats (alerts : list alert) : stats :=
  {| total := List.length alerts;
     st_pending := count_status "pending" alerts;
     st_sent := count_status "sent" alerts;
     st_failed := count_status "failed" alerts |}.

End AlertsPage.

(* ------------------------------------------------------------------------- *)
(** * AddContractModal (src/unnamed/part_007) *)

Module AddContractModal.

(** [Contract['contract_type']], src/unnamed/part_003, line 183. *)
Definition contract_type_codes : list string :=
  ["tos"; "privacy"; "sla"; "msa"; "dpa"; "other"].

Definition contractTypes : list string :=
  ["Terms of Service"; "Privacy Policy"; "Service Agreement";
   "Data Processing Agreement"; "SLA"; "Master Service Agreement"].

(** The values the two [select] elements can set: the placeholder option
    [""] and one option per entry of [contractTypes]. *)
Definition select_options : list string := "" :: contractTypes.

Definition contractTypeMap : list (string * string) :=
  [("Terms of Service", "tos");
   ("Privacy Policy", "privacy");
   ("Service Agreement", "sla");
   ("Data Processing Agreement", "dpa");
   ("SLA", "sla");
   ("Master Service Agreement", "msa")].

(** Own-property lookup [contractTypeMap[k]] ([None] is [undefined]). *)
Fixpoint lookup (k : string) (m : list (string * string)) : option string :=
  match m with
  | [] => None
  | (k', v) :: m' => if String.eqb k k' then Some v else lookup k m'
  end.

(** [contractTypeMap[contractType] || 'other'] *)
Definition apiContractType (contractType : string) : string :=
  ApiClient.js_or (lookup contractType contractTypeMap) "other".

Inductive step := method_step | manual | upload.

Inductive submission :=
| CreateContract (vendor contract_type source_url : string)
| UploadContract (file vendor contract_type : string)
| NoRequest
| Failed (message : string).

(** The request [handleSubmit] issues ([file] is the selected file name). *)
Definition handleSubmit (st : step) (vendor contractType url : string)
    (file : option string) : submission :=
  let ct := apiContractType contractType in
  match st with
  | manual => CreateContract vendor ct url
  | upload =>
      match file with
      | None => Failed "No file selected"
      | Some f => UploadContract f vendor ct
      end
  | method_step => NoRequest
  end.

Definition submitted_type (s : submission) : option string :=
  match s with
  | CreateContract _ ct _ => Some ct
  | UploadContract _ _ ct => Some ct
  | _ => None
  end.

End AddContractModal.

(* ------------------------------------------------------------------------- *)
(** * Declared API types of changes (src/unnamed/part_003, lines 226-275) *)

Module ApiTypes.

(** [Change['change_type']]: ['added' | 'removed' | 'modified' | 'rewritten'],
    the same four keys as [ComparisonStats.changes_by_type]. *)
Definition api_change_types : list string :=
  ["added"; "removed"; "modified"; "rewritten"].

End ApiTypes.

(* ------------------------------------------------------------------------- *)
(** * Clause drift pipeline (specification sections 3, 4 and 7)

    The backend of the pipeline is not in this source tree; every
    definition of this module is modelled from the specification.
    Parts the specification leaves open (the hash, the similarity
    combination, the thresholds, the category weights, the text
    normaliser, the heading scanner and the explanation service) are
    Section variables. *)

Module Drift.

Inductive Category :=
| liability | termination | data_processing | ip | sla_metrics | payment
| confidentiality | other.

Record clause := {
  clause_number : nat;
  category : option Category;
  heading : option string;
  text : string;
  position_start : nat;
  position_end : nat
}.

Inductive ChangeType := added | removed | modified | rewritten | unchanged.

Inductive RiskLevel := low | medium | high | critical.

(** A change refers to its clauses by their position in the [from] and
    [to] clause sequences. *)
Record change := {
  from_clause : option nat;
  to_clause : option nat;
  change_type : ChangeType;
  similarity_score : Q;
  risk_level : option RiskLevel;
  risk_score : option Z;
  explanation : option string
}.

(** A candidate alignment: clause [c_from] of [from] with clause [c_to] of
    [to], its similarity, and whether it is an exact [text_hash] match. *)
Record cand := {
  c_from : nat;
  c_to : nat;
  c_score : Q;
  c_exact : bool
}.

Fixpoint insert {A} (le : A -> A -> bool) (x : A) (l : list A) : list A :=
  match l with
  | [] => [x]
  | y :: l' => if le x y then x :: l else y :: insert le x l'
  end.

Fixpoint isort {A} (le : A -> A -> bool) (l : list A) : list A :=
  match l with
  | [] => []
  | x :: l' => insert le x (isort le l')
  end.

Definition indexed {A} (l : list A) : list (nat * A) :=
  combine (seq 0 (List.length l)) l.

(** [|clause_number_from - clause_number_to|] *)
Definition locality (c : cand) : nat :=
  if Nat.leb (c_from c) (c_to c) then c_to c - c_from c else c_from c - c_to c.

(** Descending similarity, ties broken by locality. *)
Definition cand_before (c d : cand) : bool :=
  if negb (Qle_bool (c_score c) (c_score d)) then true
  else if negb (Qle_bool (c_score d) (c_score c)) then false
  else Nat.leb (locality c) (locality d).

(** Modelled from the spec: the Drift Detector's greedy matching (step 2;
    the detector is absent from the source tree); accept a candidate when neither of its clauses is
    already used. The accumulator holds the accepted matches. *)
Fixpoint greedy (cs : list cand) (acc : list cand) : list cand :=
  match cs with
  | [] => acc
  | c :: cs' =>
      if existsb (fun m => Nat.eqb (c_from m) (c_from c)) acc
         || existsb (fun m => Nat.eqb (c_to m) (c_to c)) acc
      then greedy cs' acc
      else greedy cs' (c :: acc)
  end.

Section Pipeline.

(** Exact digest of the (whitespace-normalised) clause text. *)
Variable text_hash : string -> string.
(** Weighted combination of keyword cosine and simhash proximity. *)
Variable similarity : clause -> clause -> Q.
(** Pairs with trivially disjoint vocabularies are skipped. *)
Variable vocab_disjoint : clause -> clause -> bool.
Variables match_threshold modified_threshold : Q.

Definition exact_match (a b : clause) : bool :=
  String.eqb (text_hash (text a)) (text_hash (text b)).

Definition pairs (from to : list clause)
    : list ((nat * clause) * (nat * clause)) :=
  flat_map (fun ia => map (fun jb => (ia, jb)) (indexed to)) (indexed from).

(** Modelled from the spec: in the Drift Detector (absent from the source
    tree), exact duplicates by [text_hash] are short-circuited with similarity 1
    and no similarity math. *)
Definition exact_cands (from to : list clause) : list cand :=
  flat_map (fun p =>
    let '((i, a), (j, b)) := p in
    if exact_match a b
    then [{| c_from := i; c_to := j; c_score := 1; c_exact := true |}]
    else []) (pairs from to).

(** Modelled from the spec: the Drift Detector's step 1, the remaining pairs,
    without trivially disjoint vocabularies, whose similarity is above
    the match threshold. *)
Definition similar_cands (from to : list clause) : list cand :=
  flat_map (fun p =>
    let '((i, a), (j, b)) := p in
    if exact_match a b || vocab_disjoint a b then []
    else
      let s := similarity a b in
      if negb (Qle_bool s match_threshold)
      then [{| c_from := i; c_to := j; c_score := s; c_exact := false |}]
      else []) (pairs from to).

(** Modelled from the spec: the Drift Detector's alignment, exact matches
    first, then the others in descending similarity, ties by locality. *)
Definition matches (from to : list clause) : list cand :=
  greedy (isort cand_before (exact_cands from to)
          ++ isort cand_before (similar_cands from to)) [].

(** Modelled from the spec: the Drift Detector's similarity bands (step 3). *)
Definition classify_match (c : cand) : ChangeType :=
  if c_exact c then unchanged
  else if Qle_bool modified_threshold (c_score c) then modified
  else rewritten.

Definition match_change (c : cand) : change :=
  {| from_clause := Some (c_from c); to_clause := Some (c_to c);
     change_type := classify_match c;
     similarity_score := if c_exact c then 1 else c_score c;
     risk_level := None; risk_score := None; explanation := None |}.

Definition removed_change (i : nat) : change :=
  {| from_clause := Some i; to_clause := None; change_type := removed;
     similarity_score := 0; risk_level := None; risk_score := None;
     explanation := None |}.

Definition added_change (j : nat) : change :=
  {| from_clause := None; to_clause := Some j; change_type := added;
     similarity_score := 0; risk_level := None; risk_score := None;
     explanation := None |}.

Definition used (k : nat) (ks : list nat) : bool := existsb (Nat.eqb k) ks.

(** Modelled from the spec: the Drift Detector (steps 3-4; absent from the
    source tree), one change per accepted match, every unmatched
    [from] clause removed, every unmatched [to] clause added. *)
Definition detect (from to : list clause) : list change :=
  let ms := matches from to in
  map match_change ms
  ++ map removed_change
       (filter (fun i => negb (used i (map c_from ms))) (seq 0 (List.length from)))
  ++ map added_change
       (filter (fun j => negb (used j (map c_to ms))) (seq 0 (List.length to))).


(** ** Risk Classifier (specification section 4.5) *)

(** Per-category base weight and change-type multiplier. *)
Variable base_weight : option Category -> Q.
Variable type_multiplier : ChangeType -> Q.

Definition clamp_score (z : Z) : Z := Z.max 0 (Z.min 100 z).

(** Modelled from the spec: the Risk Classifier (absent from the source
    tree) scores base weight times change-type multiplier times the magnitude
    [1 - similarity_score], as an integer in 0-100. *)
Definition risk_score_of (cat : option Category) (ct : ChangeType) (sim : Q) : Z :=
  clamp_score (Qfloor (base_weight cat * type_multiplier ct * (1 - sim))).

(** Modelled from the spec: the Risk Classifier's fixed score bands. *)
Definition risk_level_of (s : Z) : RiskLevel :=
  if Z.ltb s 40 then low
  else if Z.ltb s 70 then medium
  else if Z.ltb s 90 then high
  else critical.

(** Modelled from the spec: the Risk Classifier; unchanged pairs are not
    scored. *)
Definition classify_risk (cat : option Category) (ct : ChangeType) (sim : Q)
    : option (Z * RiskLevel) :=
  match ct with
  | unchanged => None
  | _ => let s := risk_score_of cat ct sim in Some (s, risk_level_of s)
  end.

(** ** Errors and the composed pipeline (specification sections 4.1, 7) *)

Inductive PipelineError :=
| ExtractionError (reason : string)
| SegmentationWarning
| AlignmentLowConfidence
| ExplanationUnavailable.

Definition result (A : Type) : Type := (A + PipelineError)%type.

Definition ret {A} (a : A) : result A := inl a.

Definition bind {A B} (m : result A) (k : A -> result B) : result B :=
  match m with
  | inl a => k a
  | inr e => inr e
  end.

Local Notation "x <- m ;; k" := (bind m (fun x => k))
  (at level 61, m at next level, right associativity).

(** The reasoning collaborator [explain(category, change_type, old_text,
    new_text, risk_level)]; it may fail with [ExplanationUnavailable]. *)
Variable explain :
  option Category -> ChangeType -> string -> string -> RiskLevel -> result string.

Definition clause_at (l : list clause) (k : option nat) : option clause :=
  match k with
  | Some i => nth_error l i
  | None => None
  end.

Definition clause_text (l : list clause) (k : option nat) : string :=
  match clause_at l k with
  | Some a => text a
  | None => ""
  end.

(** The category weighed for a change: the [from] clause's, or the [to]
    clause's for an added clause. *)
Definition change_category (from to : list clause) (c : change) : option Category :=
  match clause_at from (from_clause c) with
  | Some a => category a
  | None =>
      match clause_at to (to_clause c) with
      | Some b => category b
      | None => None
      end
  end.

(** Modelled from the spec: the Risk Classifier stage; score a change; an unavailable explanation
    leaves [explanation] empty and does not block the score. *)
Definition score_change (from to : list clause) (c : change) : change :=
  let cat := change_category from to c in
  match classify_risk cat (change_type c) (similarity_score c) with
  | None => c
  | Some (s, lvl) =>
      let expl :=
        match explain cat (change_type c) (clause_text from (from_clause c))
                (clause_text to (to_clause c)) lvl with
        | inl e => Some e
        | inr _ => None
        end in
      {| from_clause := from_clause c; to_clause := to_clause c;
         change_type := change_type c; similarity_score := similarity_score c;
         risk_level := Some lvl; risk_score := Some s; explanation := expl |}
  end.

(** Modelled from the spec: the comparison of two versions (absent from
    the source tree), detection followed by risk scoring; an empty
    [from] sequence (first version) is a baseline and is not scored. *)
Definition compare_versions (from to : list clause) : list change :=
  let cs := detect from to in
  match from with
  | [] => cs
  | _ => map (score_change from to) cs
  end.

Inductive SourceKind := pdf | url | plain_text.

Record Document := {
  source_type : SourceKind;
  payload : option string   (* [None]: the source could not be read *)
}.

(** Size ceiling and the normalisation proper (whitespace, control
    characters, PDF page artifacts). *)
Variable max_size : nat.
Variable normalize_text : SourceKind -> string -> string.

(** Modelled from the spec: the Text Normalizer (absent from the source
    tree) rejects an unreadable,
    empty or oversized source. *)
Definition normalize (d : Document) : result string :=
  match payload d with
  | None => inr (ExtractionError "unreadable")
  | Some raw =>
      if Nat.eqb (String.length raw) 0 then inr (ExtractionError "empty")
      else if Nat.ltb max_size (String.length raw)
      then inr (ExtractionError "exceeds size ceiling")
      else ret (normalize_text (source_type d) raw)
  end.

Definition extractable (d : Document) : bool :=
  match payload d with
  | None => false
  | Some raw =>
      negb (Nat.eqb (String.length raw) 0)
      && Nat.leb (String.length raw) max_size
  end.

(** Heading-marker segmentation, which may report [SegmentationWarning],
    and the paragraph-level fallback. *)
Variable segment_by_headings : string -> result (list clause).
Variable segment_paragraphs : string -> list clause.

(** Modelled from the spec: the Clause Segmenter (absent from the source
    tree) with its paragraph-level fallback. *)
Definition segment (t : string) : list clause :=
  match segment_by_headings t with
  | inl cs => cs
  | inr _ => segment_paragraphs t
  end.

(** Modelled from the spec: the pipeline for one version pair (absent
    from the source tree). *)
Definition process (d_from d_to : Document) : result (list change) :=
  tf <- normalize d_from ;;
  tt <- normalize d_to ;;
  ret (compare_versions (segment tf) (segment tt)).

End Pipeline.

(** Number of changes of [cs] that refer, through [sel] ([from_clause] or
    [to_clause]), to clause [i]. *)
Definition count_clause (sel : change -> option nat) (i : nat) (cs : list change) : nat :=
  List.length (filter (fun c => match sel c with
                                | Some k => Nat.eqb k i
                                | None => false
                                end) cs).

End Drift.

(* ------------------------------------------------------------------------- *)
(** * A sample configuration of the pipeline's open parameters *)

Module SampleConfig.
Import Drift.

(** The digest is stood in for by the text itself (an injective hash). *)
Definition hash (s : string) : string := s.

Definition similarity (a b : clause) : Q := 1 # 2.

Definition vocab_disjoint (a b : clause) : bool := false.

Definition match_threshold : Q := 1 # 4.
Definition modified_threshold : Q := 3 # 4.

Definition base_weight (c : option Category) : Q :=
  match c with
  | Some liability | Some termination | Some ip | Some data_processing => 100
  | _ => 50
  end.

Definition type_multiplier (t : ChangeType) : Q :=
  match t with
  | removed | rewritten => 3 # 2
  | _ => 1
  end.

(** The reasoning collaborator is unavailable. *)
Definition explain (cat : option Category) (t : ChangeType) (old new : string)
    (l : RiskLevel) : result string :=
  inr ExplanationUnavailable.

Definition max_size : nat := 4096.

Definition normalize_text (k : SourceKind) (s : string) : string := s.

Definition segment_by_headings (t : string) : result (list clause) :=
  inr SegmentationWarning.

Definition segment_paragraphs (t : string) : list clause :=
  [{| clause_number := 1; category := None; heading := None; text := t;
      position_start := 0; position_end := String.length t |}].

Definition liability_cap : clause :=
  {| clause_number := 1; category := Some liability; heading := None;
     text := "Liability is capped at fees paid in the prior 12 months.";
     position_start := 0; position_end := 56 |}.

Definition liability_cap_moved : clause :=
  {| clause_number := 2; category := Some liability; heading := None;
     text := "Liability is capped at fees paid in the prior 12 months.";
     position_start := 57; position_end := 113 |}.

Definition termination_notice : clause :=
  {| clause_number := 1; category := Some termination; heading := None;
     text := "Either party may terminate with 30 days notice.";
     position_start := 0; position_end := 48 |}.

Definition compare (from to : list clause) : list change :=
  compare_versions hash similarity vocab_disjoint match_threshold
    modified_threshold base_weight type_multiplier explain from to.

End SampleConfig.

(* ------------------------------------------------------------------------- *)
(** * Requests of the API client (src/unnamed/part_003, lines 18-48 and
      66-175) and the pages that issue them *)

Module ApiRequest.
Import ApiClient.
Local Open Scope nat_scope.

(** [process.env.NEXT_PUBLIC_API_URL || 'http://localhost:8000'] *)
Definition API_BASE_URL (env : option string) : string :=
  js_or env "http://localhost:8000".

(** JavaScript numbers as the client meets them: integers and [NaN]. A
    JavaScript number holds an integer exactly only within the safe range
    |z| <= 2^53 - 1, and the statements about numbers below assume it. *)
Inductive number := Num (z : Z) | NaN.

(** Truthiness of a number: [0] and [NaN] are falsy. *)
Definition number_truthy (n : number) : bool :=
  match n with
  | Num z => negb (Z.eqb z 0)
  | NaN => false
  end.

(** Decimal digits of a non-negative integer, prepended to [acc]. *)
Fixpoint digits (fuel : nat) (n : Z) (acc : string) : string :=
  match fuel with
  | O => acc
  | S f =>
      let acc' := String (ascii_of_nat (48 + Z.to_nat (n mod 10)%Z)) acc in
      if Z.ltb n 10 then acc' else digits f (n / 10)%Z acc'
  end.

Definition nat_digits (n : Z) : string :=
  digits (S (Z.to_nat (Z.log2 n))) n "".

(** [String(n)] for [NaN] and the safe integers, which JavaScript prints
    as plain decimal digits (it switches to exponent notation only from
    1e21 on, far beyond 2^53). *)
Definition number_to_string (n : number) : string :=
  match n with
  | NaN => "NaN"
  | Num z => if Z.ltb z 0 then "-" ++ nat_digits (- z)%Z else nat_digits z
  end.

(** [Number::toString] on an integral number (a rational with denominator
    1), such as a status code or a count in a JSON body. *)
Definition integer_toString (q : Q) : string := number_to_string (Num (Qnum q)).






(** A value of the [params] object. *)
Inductive param :=
| PUndefined
| PNull
| PString (s : string)
| PNumber (n : number)
| PBool (b : bool).

(** [String(value)] for the values [apiFetch] keeps. *)
Definition param_value (v : param) : option string :=
  match v with
  | PUndefined | PNull => None
  | PString s => Some s
  | PNumber n => Some (number_to_string n)
  | PBool b => Some (if b then "true" else "false")
  end.

(** The pairs appended to [searchParams], in [Object.entries] order (the
    params objects of the client have no integer-like keys). *)
Fixpoint kept_params (ps : list (string * param)) : list (string * string) :=
  match ps with
  | [] => []
  | (k, v) :: ps' =>
      match param_value v with
      | Some s => (k, s) :: kept_params ps'
      | None => kept_params ps'
      end
  end.

(** The application/x-www-form-urlencoded byte serializer used by
    [URLSearchParams.toString()]: strings are sequences of UTF-8 bytes. *)
Definition form_unreserved (n : nat) : bool :=
  Nat.eqb n 42 || Nat.eqb n 45 || Nat.eqb n 46 || ((48 <=? n) && (n <=? 57))%nat
  || ((65 <=? n) && (n <=? 90))%nat || Nat.eqb n 95
  || ((97 <=? n) && (n <=? 122))%nat.

Definition hex_digit (n : nat) : ascii :=
  ascii_of_nat (if Nat.ltb n 10 then 48 + n else 55 + n).

Definition form_byte (c : ascii) : string :=
  let n := nat_of_ascii c in
  if form_unreserved n then String c EmptyString
  else if Nat.eqb n 32 then "+"
  else String "%" (String (hex_digit (n / 16))
                     (String (hex_digit (n mod 16)) EmptyString)).

Fixpoint form_encode (s : string) : string :=
  match s with
  | EmptyString => EmptyString
  | String c s' => form_byte c ++ form_encode s'
  end.

(** Whether the byte [a] occurs in [s]. *)
Fixpoint has_char (a : ascii) (s : string) : bool :=
  match s with
  | EmptyString => false
  | String c s' => Ascii.eqb c a || has_char a s'
  end.


Definition serialize_pair (kv : string * string) : string :=
  form_encode (fst kv) ++ "=" ++ form_encode (snd kv).

(** [searchParams.toString()] *)
Definition query_string (ps : list (string * param)) : string :=
  String.concat "&" (map serialize_pair (kept_params ps)).

(** The URL [apiFetch] requests. *)
Definition request_url (base endpoint : string)
    (params : option (list (string * param))) : string :=
  let url := base ++ endpoint in
  match params with
  | None => url
  | Some ps =>
      let qs := query_string ps in
      if String.eqb qs "" then url else url ++ "?" ++ qs
  end.

(** The application/x-www-form-urlencoded parser a server applies to the
    query: split on [&], drop empty sequences, split each at the first
    [=], replace [+] by a space and percent-decode. *)
Fixpoint split_on (sep : ascii) (s : string) : list string :=
  match s with
  | EmptyString => [EmptyString]
  | String c s' =>
      if Ascii.eqb c sep then EmptyString :: split_on sep s'
      else match split_on sep s' with
           | [] => [String c EmptyString]
           | w :: ws => String c w :: ws
           end
  end.

Fixpoint break_at (sep : ascii) (s : string) : string * option string :=
  match s with
  | EmptyString => (EmptyString, None)
  | String c s' =>
      if Ascii.eqb c sep then (EmptyString, Some s')
      else let '(a, b) := break_at sep s' in (String c a, b)
  end.

Fixpoint plus_to_space (s : string) : string :=
  match s with
  | EmptyString => EmptyString
  | String c s' =>
      String (if Ascii.eqb c "+"%char then " "%char else c) (plus_to_space s')
  end.

Definition hex_value (c : ascii) : option nat :=
  let n := nat_of_ascii c in
  if (48 <=? n) && (n <=? 57) then Some (n - 48)
  else if (65 <=? n) && (n <=? 70) then Some (n - 55)
  else if (97 <=? n) && (n <=? 102) then Some (n - 87)
  else None.

Fixpoint percent_decode (s : string) : string :=
  match s with
  | EmptyString => EmptyString
  | String c s' =>
      if Ascii.eqb c "%"%char then
        match s' with
        | String h (String l s'') =>
            match hex_value h, hex_value l with
            | Some a, Some b => String (ascii_of_nat (a * 16 + b)) (percent_decode s'')
            | _, _ => String c (percent_decode s')
            end
        | _ => String c (percent_decode s')
        end
      else String c (percent_decode s')
  end.

Definition form_decode (s : string) : string := percent_decode (plus_to_space s).

Definition parse_pair (sq : string) : string * string :=
  let '(n, v) := break_at "="%char sq in
  (form_decode n, match v with Some v => form_decode v | None => "" end).

Definition parse_query (q : string) : list (string * string) :=
  map parse_pair (filter (fun sq => negb (String.eqb sq "")) (split_on "&"%char q)).

(** Objects as lists of own properties in insertion order. *)
Fixpoint get_prop {V} (k : string) (o : list (string * V)) : option V :=
  match o with
  | [] => None
  | (k', v) :: o' => if String.eqb k k' then Some v else get_prop k o'
  end.

(** Assignment of a property: replaced in place, or appended. *)
Fixpoint set_prop {V} (k : string) (v : V) (o : list (string * V)) : list (string * V) :=
  match o with
  | [] => [(k, v)]
  | (k', v') :: o' =>
      if String.eqb k k' then (k', v) :: o' else (k', v') :: set_prop k v o'
  end.

(** [{...o, ...src}] *)
Definition spread {V} (o src : list (string * V)) : list (string * V) :=
  fold_left (fun acc kv => set_prop (fst kv) (snd kv) acc) src o.

(** Values of the [RequestInit] properties: strings ([method], [body]) and
    the [headers] object ([None] is [undefined]). *)
Inductive init_value :=
| IString (s : string)
| IHeaders (h : option (list (string * string))).

(** The entries spread by [...fetchOptions?.headers]. *)
Definition headers_entries (v : option init_value) : list (string * string) :=
  match v with
  | Some (IHeaders (Some h)) => h
  | _ => []
  end.

Definition default_headers : list (string * string) :=
  [("Content-Type", "application/json")].

(** The init object passed to [fetch]:
    [{headers: {'Content-Type': ..., ...fetchOptions?.headers}, ...fetchOptions}]. *)
Definition fetch_init (fetchOptions : list (string * init_value))
    : list (string * init_value) :=
  spread [("headers", IHeaders (Some (spread default_headers
                                  (headers_entries (get_prop "headers" fetchOptions)))))]
         fetchOptions.

(** The headers object [fetch] sends. *)
Definition sent_headers (init : list (string * init_value)) : list (string * string) :=
  headers_entries (get_prop "headers" init).

(** The [options] argument of [apiFetch]: [params], and the remaining own
    properties [fetchOptions]. *)
Record api_options := {
  params : option (list (string * param));
  fetchOptions : list (string * init_value)
}.

(** URL and init of the [fetch] call of [apiFetch(endpoint, options)]. *)
Definition request_of (base endpoint : string) (options : option api_options)
    : string * list (string * init_value) :=
  let o := match options with
           | Some o => o
           | None => {| params := None; fetchOptions := [] |}
           end in
  (request_url base endpoint (params o), fetch_init (fetchOptions o)).

(** The wrappers of the client that go through [apiFetch]; a [body] is the
    already serialized [JSON.stringify(...)]. *)
Inductive client_call :=
| contracts_list (p : option (list (string * param)))
| contracts_get (id : string)
| contracts_create (body : string)
| contracts_delete (id : string)
| versions_list (contractId : string)
| versions_get (versionId : string)
| versions_compare (versionId otherVersionId : string)
| clauses_listForVersion (versionId : string)
| clauses_get (clauseId : string)
| changes_list (p : option (list (string * param)))
| changes_get (changeId : string)
| alerts_list (p : option (list (string * param)))
| alerts_updateStatus (id body : string)
| stats_get
| analytics_getTrends (days : option number)
| analytics_getRiskDistribution
| analytics_getChangeTypes
| analytics_getVendorStats (limit : option number).

(** [n ? { key: n } : undefined] *)
Definition truthy_param (key : string) (n : option number)
    : option (list (string * param)) :=
  match n with
  | Some x => if number_truthy x then Some [(key, PNumber x)] else None
  | None => None
  end.

Definition with_params (p : option (list (string * param))) : option api_options :=
  Some {| params := p; fetchOptions := [] |}.

Definition with_init (fo : list (string * init_value)) : option api_options :=
  Some {| params := None; fetchOptions := fo |}.

(** The arguments each wrapper passes to [apiFetch]. *)
Definition call_args (c : client_call) : string * option api_options :=
  match c with
  | contracts_list p => ("/api/contracts", with_params p)
  | contracts_get id => ("/api/contracts/" ++ id, None)
  | contracts_create b =>
      ("/api/contracts", with_init [("method", IString "POST"); ("body", IString b)])
  | contracts_delete id => ("/api/contracts/" ++ id, with_init [("method", IString "DELETE")])
  | versions_list cid => ("/api/contracts/" ++ cid ++ "/versions", None)
  | versions_get vid => ("/api/contracts/versions/" ++ vid, None)
  | versions_compare vid oid =>
      ("/api/contracts/versions/" ++ vid ++ "/compare/" ++ oid, None)
  | clauses_listForVersion vid => ("/api/contracts/versions/" ++ vid ++ "/clauses", None)
  | clauses_get cid => ("/api/contracts/clauses/" ++ cid, None)
  | changes_list p => ("/api/contracts/changes", with_params p)
  | changes_get cid => ("/api/contracts/changes/" ++ cid, None)
  | alerts_list p => ("/api/alerts", with_params p)
  | alerts_updateStatus id b =>
      ("/api/alerts/" ++ id, with_init [("method", IString "PATCH"); ("body", IString b)])
  | stats_get => ("/api/stats", None)
  | analytics_getTrends days =>
      ("/api/analytics/trends", with_params (truthy_param "days" days))
  | analytics_getRiskDistribution => ("/api/analytics/risk-distribution", None)
  | analytics_getChangeTypes => ("/api/analytics/change-types", None)
  | analytics_getVendorStats limit =>
      ("/api/analytics/vendor-stats", with_params (truthy_param "limit" limit))
  end.

Definition client_request (env : option string) (c : client_call)
    : string * list (string * init_value) :=
  let '(ep, o) := call_args c in request_of (API_BASE_URL env) ep o.

(** [contractsApi.upload] after its [fetch] resolved: the error is
    [await response.json().catch(() => ({detail: 'Upload failed'}))], and
    [new Error(error.detail)] is thrown; [Number_toString] is
    [Number::toString]. *)
Definition upload_detail (r : response) : option (option jvalue) :=
  match resp_body r with
  | BodyInvalid => Some (Some (VString "Upload failed"))
  | BodyJson VNull => None
  | BodyJson (VObject ms) => Some (member "detail" ms)
  | BodyJson _ => Some None
  end.

Definition upload (Number_toString : Q -> string) (r : response) : outcome :=
  if negb (ok r) then
    match upload_detail r with
    | None => Threw TypeError
    | Some d => Threw (new_Error Number_toString d)
    end
  else
    match resp_body r with
    | BodyJson j => Returned (Some j)
    | BodyInvalid => Threw SyntaxError
    end.

End ApiRequest.

(* ------------------------------------------------------------------------- *)
(** * Pages issuing list queries *)

Module ListPages.
Import ApiRequest.



(** [alertsApi.list({status: status === 'all' ? undefined : status, limit: 100})]
    (src/frontend/src/app/alerts/page.tsx, lines 240-246). *)
Definition alerts_page_call (status : string) : client_call :=
  alerts_list (Some [("status", if String.eqb status "all" then PUndefined
                                else PString status);
                     ("limit", PNumber (Num 100))]).

(** [contractsApi.list({contract_type: contractType === 'all' ? undefined :
    contractType, limit: 100})] (src/frontend/src/app/contracts/page.tsx,
    lines 19-25). *)
Definition contracts_page_call (contractType : string) : client_call :=
  contracts_list (Some [("contract_type", if String.eqb contractType "all" then PUndefined
                                          else PString contractType);
                        ("limit", PNumber (Num 100))]).

End ListPages.

(* ------------------------------------------------------------------------- *)
(** * AddContractModal state (src/unnamed/part_007, lines 13-21, 42-46,
      88-96 and 338) *)

Module ModalState.
Import AddContractModal.

Record modal_state := {
  m_step : step;
  m_vendor : string;
  m_contractType : string;
  m_file : option string;
  m_url : string;
  m_loading : bool;
  m_error : bool;
  m_errorMessage : string
}.

Definition is_manual (st : step) : bool :=
  match st with manual => true | _ => false end.

Definition is_upload (st : step) : bool :=
  match st with upload => true | _ => false end.

(** The submit button exists only when [step !== 'method']. *)
Definition submit_shown (s : modal_state) : bool :=
  match m_step s with method_step => false | _ => true end.

(** [loading || !vendor || !contractType || (step === 'manual' && !url)
    || (step === 'upload' && !file)] *)
Definition submit_disabled (s : modal_state) : bool :=
  m_loading s || String.eqb (m_vendor s) "" || String.eqb (m_contractType s) ""
  || (is_manual (m_step s) && String.eqb (m_url s) "")
  || (is_upload (m_step s) && match m_file s with None => true | Some _ => false end).

(** The request a click on the submit button issues. *)
Definition submit (s : modal_state) : submission :=
  handleSubmit (m_step s) (m_vendor s) (m_contractType s) (m_url s) (m_file s).

Definition resetForm (s : modal_state) : modal_state :=
  {| m_step := method_step; m_vendor := ""; m_contractType := "";
     m_file := None; m_url := ""; m_loading := m_loading s;
     m_error := false; m_errorMessage := "" |}.

Definition setStep (st : step) (s : modal_state) : modal_state :=
  {| m_step := st; m_vendor := m_vendor s; m_contractType := m_contractType s;
     m_file := m_file s; m_url := m_url s; m_loading := m_loading s;
     m_error := m_error s; m_errorMessage := m_errorMessage s |}.

(** [handleFileChange]: [files] is [e.target.files] ([None] is [null]). *)
Definition handleFileChange (files : option (list string)) (s : modal_state)
    : modal_state :=
  match files with
  | Some (f :: _) =>
      {| m_step := m_step s; m_vendor := m_vendor s;
         m_contractType := m_contractType s; m_file := Some f; m_url := m_url s;
         m_loading := m_loading s; m_error := m_error s;
         m_errorMessage := m_errorMessage s |}
  | _ => s
  end.

End ModalState.

(* ------------------------------------------------------------------------- *)
(** * Vendor page risk colours (src/unnamed/part_009, lines 34-45 and 123) *)

Module VendorPage.

Definition getRiskColor (score : Q) : string :=
  if Qle_bool 80 score then "bg-rose-500"
  else if Qle_bool 60 score then "bg-orange-500"
  else if Qle_bool 40 score then "bg-amber-500"
  else "bg-emerald-500".

Definition getRiskBorderColor (score : Q) : string :=
  if Qle_bool 80 score then "border-rose-300"
  else if Qle_bool 60 score then "border-orange-300"
  else if Qle_bool 40 score then "border-amber-300"
  else "border-emerald-300".

(** The [fill] of a bar of the vendor risk chart. *)
Definition bar_fill (score : Q) : string :=
  if Qle_bool 80 score then "#dc2626"
  else if Qle_bool 60 score then "#ea580c"
  else if Qle_bool 40 score then "#f59e0b"
  else "#10b981".

(** Severity rank of each colour of the three palettes. *)
Definition color_rank (c : string) : nat :=
  if String.eqb c "bg-rose-500" || String.eqb c "border-rose-300"
     || String.eqb c "#dc2626" then 3
  else if String.eqb c "bg-orange-500" || String.eqb c "border-orange-300"
          || String.eqb c "#ea580c" then 2
  else if String.eqb c "bg-amber-500" || String.eqb c "border-amber-300"
          || String.eqb c "#f59e0b" then 1
  else 0.

End VendorPage.

(* ------------------------------------------------------------------------- *)
(** * AnalyticsPage chart data (src/unnamed/part_005, lines 66-74) *)

Module AnalyticsPage.

Record risk_distribution := {
  critical : Z;
  high : Z;
  medium : Z;
  low : Z
}.

Record slice := {
  name : string;
  value : Z;
  color : string
}.

(** The [riskData] memo. *)
Definition riskData (d : option risk_distribution) : list slice :=
  match d with
  | None => []
  | Some d =>
      filter (fun item => Z.ltb 0 (value item))
        [{| name := "Critical"; value := critical d; color := "#ef4444" |};
         {| name := "High"; value := high d; color := "#f97316" |};
         {| name := "Medium"; value := medium d; color := "#f59e0b" |};
         {| name := "Low"; value := low d; color := "#10b981" |}]
  end.

Definition slice_total (l : list slice) : Z :=
  fold_right (fun s acc => (value s + acc)%Z) 0%Z l.

End AnalyticsPage.

(* ------------------------------------------------------------------------- *)
(** * Contracts page memos (src/frontend/src/app/contracts/page.tsx,
      lines 28-41) *)

Module ContractsPage.
Local Open Scope nat_scope.

Record contract := {
  contract_id : string;
  vendor : string;
  contract_type : string
}.




Section Search.
(** [String.prototype.toLowerCase] *)
Variable toLowerCase : string -> string.


End Search.

(** [set.add(x)] on a Set kept as its insertion-ordered elements. *)
Definition set_add (s : list string) (x : string) : list string :=
  if existsb (String.eqb x) s then s else s ++ [x].

(** The [contractTypes] memo: [Array.from(new Set(contracts.map(c => c.contract_type)))]. *)
Definition contractTypes (contracts : option (list contract)) : list string :=
  match contracts with
  | None => []
  | Some cs => fold_left set_add (map contract_type cs) []
  end.

End ContractsPage.

(* ========================================================================= *)
(** * Properties *)

Module ApiClientFacts.
Import ApiClient.

Example apiFetch_ok_json :
  apiFetch ApiRequest.integer_toString {| status := 200; statusText := "OK"; resp_body := BodyJson (VArray []) |}
  = Returned (Some (VArray [])).
Proof. reflexivity. Qed.

Example apiFetch_no_content :
  apiFetch ApiRequest.integer_toString {| status := 204; statusText := "No Content"; resp_body := BodyInvalid |}
  = Returned None.
Proof. reflexivity. Qed.

Example apiFetch_detail :
  apiFetch ApiRequest.integer_toString {| status := 404; statusText := "Not Found";
                  resp_body := BodyJson (VObject [("detail", VString "Contract not found")]) |}
  = Threw (Error "Contract not found").
Proof. reflexivity. Qed.

(** C8 (counterexample): a failed response whose JSON body has no [detail]
    throws "API request failed", not the body's detail nor the status
    text; a non-JSON failed body with an empty status text (as over
    HTTP/2) also throws "API request failed"; a validation error whose
    [detail] is a list of objects throws "[object Object]"; and a numeric
    [detail] 42 throws "42". *)
Lemma apiFetch_detail_fallback_counterexample :
  apiFetch ApiRequest.integer_toString {| status := 404; statusText := "Not Found"; resp_body := BodyJson (VObject []) |}
  = Threw (Error "API request failed")
  /\ apiFetch ApiRequest.integer_toString {| status := 500; statusText := ""; resp_body := BodyInvalid |}
  = Threw (Error "API request failed")
  /\ apiFetch ApiRequest.integer_toString {| status := 422; statusText := "Unprocessable Entity";
                     resp_body := BodyJson (VObject
                       [("detail", VArray [VObject [("msg", VString "field required")]])]) |}
  = Threw (Error "[object Object]")
  /\ apiFetch ApiRequest.integer_toString {| status := 400; statusText := "Bad Request";
                     resp_body := BodyJson (VObject [("detail", VNumber 42)]) |}
  = Threw (Error "42").
Proof. repeat split; vm_compute; reflexivity. Qed.

(** C8 (amended): a response that is not ok never yields a value. A JSON
    null body throws a TypeError; any other body throws [new Error(d)],
    where [d] is the body's [detail] when that is truthy, the status text
    when the body is not JSON and the status text is non-empty, and
    "API request failed" otherwise. An ok 204 yields undefined; any other
    ok response yields its parsed JSON body, and rejects with a SyntaxError
    when the body is not JSON. *)
Theorem apiFetch_outcomes (Number_toString : Q -> string) (r : response) :
  (ok r = false -> forall v, apiFetch Number_toString r <> Returned v)
  /\ (ok r = false -> resp_body r = BodyJson VNull ->
      apiFetch Number_toString r = Threw TypeError)
  /\ (ok r = false -> resp_body r <> BodyJson VNull ->
      apiFetch Number_toString r =
      Threw (new_Error Number_toString (Some
        match resp_body r with
        | BodyJson (VObject ms) =>
            match member "detail" ms with
            | Some v => if truthy v then v else VString "API request failed"
            | None => VString "API request failed"
            end
        | BodyInvalid => VString (js_or (Some (statusText r)) "API request failed")
        | _ => VString "API request failed"
        end)))
  /\ (ok r = true -> status r = 204%Z -> apiFetch Number_toString r = Returned None)
  /\ (ok r = true -> status r <> 204%Z ->
      forall j, resp_body r = BodyJson j -> apiFetch Number_toString r = Returned (Some j))
  /\ (ok r = true -> status r <> 204%Z -> resp_body r = BodyInvalid ->
      apiFetch Number_toString r = Threw SyntaxError).
Proof.
  unfold apiFetch, error_detail, detail_or_default.
  repeat split; intros Hok.
  - intros v; rewrite Hok; simpl.
    destruct (resp_body r) as [[]|]; try destruct (member _ _); discriminate.
  - intros Hb; rewrite Hok, Hb; reflexivity.
  - intros Hnull; rewrite Hok; simpl.
    destruct (resp_body r) as [[]|]; try reflexivity; [congruence |].
    unfold js_or; simpl; destruct (String.eqb (statusText r) ""); reflexivity.
  - intros H204; rewrite Hok, H204; reflexivity.
  - intros H204 j Hb; rewrite Hok, Hb; simpl.
    apply Z.eqb_neq in H204; rewrite H204; reflexivity.
  - intros H204 Hb; rewrite Hok, Hb; simpl.
    apply Z.eqb_neq in H204; rewrite H204; reflexivity.
Qed.

End ApiClientFacts.

Module AlertsPageFacts.
Import AlertsPage.
Local Open Scope nat_scope.
Local Open Scope string_scope.

Example pending_alert_buttons :
  status_buttons {| alert_id := "a1"; change_id := "c1"; alert_status := "pending" |}
  = [("Mark as Sent", "sent"); ("Mark as Failed", "failed")].
Proof. reflexivity. Qed.

(** C9: on a pending alert (a status the API declares), the "Mark as
    Failed" button sends the status "failed", which is not one of the
    declared statuses pending/sent/acknowledged/resolved; and the page's
    statistics count pending/sent/failed, so an acknowledged or resolved
    alert falls in none of the counted groups. *)
Theorem mark_as_failed_writes_undeclared_status :
  exists a req,
    In (alert_status a) declared_statuses
    /\ press a "Mark as Failed" = Some req
    /\ body_status req = "failed"
    /\ ~ In (body_status req) declared_statuses
    /\ (forall alerts, st_failed (page_stats alerts) = count_status "failed" alerts)
    /\ (forall alerts,
          st_pending (page_stats alerts) + st_sent (page_stats alerts)
          + st_failed (page_stats alerts)
          + count_status "acknowledged" alerts + count_status "resolved" alerts
          <= total (page_stats alerts))
    /\ exists alerts,
         Forall (fun x => In (alert_status x) declared_statuses) alerts
         /\ st_pending (page_stats alerts) + st_sent (page_stats alerts)
            + st_failed (page_stats alerts) < total (page_stats alerts).
Proof.
  set (a := {| alert_id := "a1"; change_id := "c1"; alert_status := "pending" |}).
  exists a, (handleStatusUpdate "a1" "failed").
  split; [simpl; auto |].
  split; [reflexivity |].
  split; [reflexivity |].
  split; [simpl; intuition discriminate |].
  split; [reflexivity |].
  split.
  - intros alerts; unfold page_stats, count_status; simpl.
    induction alerts as [|x l IH]; simpl; [lia |].
    destruct (String.eqb (alert_status x) "pending") eqn:E1;
    destruct (String.eqb (alert_status x) "sent") eqn:E2;
    destruct (String.eqb (alert_status x) "failed") eqn:E3;
    destruct (String.eqb (alert_status x) "acknowledged") eqn:E4;
    destruct (String.eqb (alert_status x) "resolved") eqn:E5;
    simpl;
    repeat match goal with
           | H : String.eqb _ _ = true |- _ => apply String.eqb_eq in H
           end;
    try congruence; lia.
  - exists [{| alert_id := "a2"; change_id := "c2"; alert_status := "acknowledged" |}].
    split.
    + constructor; [simpl; auto 6 | constructor].
    + apply Nat.ltb_lt; reflexivity.
Qed.

End AlertsPageFacts.

Module AddContractModalFacts.
Import AddContractModal.

Example submit_service_agreement :
  handleSubmit manual "Acme" "Service Agreement" "https://acme.example/tos" None
  = CreateContract "Acme" "sla" "https://acme.example/tos".
Proof. reflexivity. Qed.

(** C10: for every value the contract-type select can hold, the
    contract_type sent by [handleSubmit] (manual or upload) is one of the
    six declared codes; a selectable value that is not a key of
    [contractTypeMap] (the placeholder) is sent as "other"; and
    "Service Agreement" and "SLA" both map to "sla". *)
Theorem submitted_contract_type_declared (contractType : string)
    (Hsel : In contractType select_options) :
  (forall st vendor url file ct,
      submitted_type (handleSubmit st vendor contractType url file) = Some ct ->
      In ct contract_type_codes)
  /\ (lookup contractType contractTypeMap = None ->
      apiContractType contractType = "other")
  /\ apiContractType "Service Agreement" = "sla"
  /\ apiContractType "SLA" = "sla".
Proof.
  assert (Hcode : In (apiContractType contractType) contract_type_codes).
  { unfold select_options, contractTypes in Hsel; simpl in Hsel.
    intuition (subst; simpl; auto 8). }
  split; [| split; [| split; reflexivity]].
  - intros st vendor url file ct H.
    destruct st; simpl in H; [discriminate | |].
    + injection H as <-; exact Hcode.
    + destruct file; simpl in H; [injection H as <-; exact Hcode | discriminate].
  - intros Hn; unfold apiContractType; rewrite Hn; reflexivity.
Qed.

(** Witness of C10 on the "Service Agreement" option. *)
Lemma submitted_contract_type_declared_witness :
  In "Service Agreement" select_options
  /\ submitted_type (handleSubmit upload "Acme" "Service Agreement" "" (Some "tos.pdf"))
     = Some "sla"
  /\ In "sla" contract_type_codes.
Proof.
  assert (H : In "Service Agreement" select_options) by (simpl; auto 6).
  split; [exact H |].
  split; [reflexivity |].
  exact (proj1 (submitted_contract_type_declared "Service Agreement" H)
           upload "Acme" "" (Some "tos.pdf") "sla" eq_refl).
Defined.

End AddContractModalFacts.

Module DriftFacts.
Import Drift.
Local Open Scope nat_scope.

(** ** Lists, sorting and greedy matching *)

Lemma in_insert {A} (le : A -> A -> bool) (x y : A) (l : list A) :
  In y (insert le x l) <-> y = x \/ In y l.
Proof.
  induction l as [|z l IH]; simpl.
  - intuition.
  - destruct (le x z); simpl; rewrite ?IH; intuition.
Qed.

Lemma in_isort {A} (le : A -> A -> bool) (y : A) (l : list A) :
  In y (isort le l) <-> In y l.
Proof.
  induction l as [|x l IH]; simpl; [tauto |].
  rewrite in_insert, IH; intuition.
Qed.

Lemma greedy_app (cs1 cs2 acc : list cand) :
  greedy (cs1 ++ cs2) acc = greedy cs2 (greedy cs1 acc).
Proof.
  revert acc; induction cs1 as [|c cs1 IH]; intros acc; simpl; [reflexivity |].
  destruct (_ || _); apply IH.
Qed.

Lemma greedy_keeps (cs acc : list cand) (x : cand) :
  In x acc -> In x (greedy cs acc).
Proof.
  revert acc; induction cs as [|c cs IH]; intros acc Hx; simpl; [exact Hx |].
  destruct (_ || _); apply IH; simpl; auto.
Qed.

Lemma greedy_origin (cs acc : list cand) (x : cand) :
  In x (greedy cs acc) -> In x acc \/ In x cs.
Proof.
  revert acc; induction cs as [|c cs IH]; intros acc Hx; simpl in *; [auto |].
  destruct (_ || _).
  - destruct (IH _ Hx); auto.
  - destruct (IH _ Hx) as [[<-|H]|H]; auto.
Qed.

Lemma used_eq (k : nat) (ks : list nat) : used k ks = true <-> In k ks.
Proof.
  unfold used; rewrite existsb_exists; split.
  - intros [x [Hx E]]; apply Nat.eqb_eq in E; subst; exact Hx.
  - intros H; exists k; split; [exact H | apply Nat.eqb_refl].
Qed.

Lemma greedy_nodup (cs acc : list cand) :
  NoDup (map c_from acc) -> NoDup (map c_to acc) ->
  NoDup (map c_from (greedy cs acc)) /\ NoDup (map c_to (greedy cs acc)).
Proof.
  revert acc; induction cs as [|c cs IH]; intros acc Hf Ht; simpl; [auto |].
  destruct (existsb (fun m => Nat.eqb (c_from m) (c_from c)) acc) eqn:E1;
    simpl; [apply IH; auto |].
  destruct (existsb (fun m => Nat.eqb (c_to m) (c_to c)) acc) eqn:E2;
    simpl; [apply IH; auto |].
  apply IH; simpl; constructor; auto.
  - intros Hin; apply in_map_iff in Hin as [m [Hm Hin]].
    assert (Hc : existsb (fun m => Nat.eqb (c_from m) (c_from c)) acc = true)
      by (apply existsb_exists; exists m; rewrite Hm, Nat.eqb_refl; auto).
    congruence.
  - intros Hin; apply in_map_iff in Hin as [m [Hm Hin]].
    assert (Hc : existsb (fun m => Nat.eqb (c_to m) (c_to c)) acc = true)
      by (apply existsb_exists; exists m; rewrite Hm, Nat.eqb_refl; auto).
    congruence.
Qed.

(** A candidate that no other candidate competes with, and whose clauses
    are both free, is accepted. *)
Lemma greedy_accepts (cs acc : list cand) (x : cand) :
  In x cs ->
  (forall y, In y cs -> c_from y = c_from x \/ c_to y = c_to x -> y = x) ->
  (forall y, In y acc -> c_from y <> c_from x /\ c_to y <> c_to x) ->
  In x (greedy cs acc).
Proof.
  revert acc; induction cs as [|y cs IH]; intros acc Hx Hcomp Hfree;
    [destruct Hx |].
  simpl.
  destruct (Nat.eq_dec (c_from y) (c_from x)) as [Ef|Ef];
  [| destruct (Nat.eq_dec (c_to y) (c_to x)) as [Et|Et]].
  1, 2: assert (y = x) as -> by (apply Hcomp; simpl; auto);
    replace (existsb (fun m => Nat.eqb (c_from m) (c_from x)) acc) with false;
    [replace (existsb (fun m => Nat.eqb (c_to m) (c_to x)) acc) with false;
     [simpl; apply greedy_keeps; simpl; auto |] |];
    symmetry; apply not_true_iff_false; intros Hin;
    apply existsb_exists in Hin as [m [Hm E]]; apply Nat.eqb_eq in E;
    apply Hfree in Hm; tauto.
  assert (Hx' : In x cs).
  { destruct Hx as [<-|Hx]; [tauto | exact Hx]. }
  assert (Hcomp' : forall z, In z cs -> c_from z = c_from x \/ c_to z = c_to x -> z = x)
    by (intros z Hz; apply Hcomp; simpl; auto).
  destruct (_ || _); apply IH; auto.
  intros z [<-|Hz]; [auto | apply Hfree, Hz].
Qed.

(** ** Counting the changes of a clause *)

Lemma count_clause_app (sel : change -> option nat) (i : nat) (l1 l2 : list change) :
  count_clause sel i (l1 ++ l2) = count_clause sel i l1 + count_clause sel i l2.
Proof. unfold count_clause; rewrite filter_app, length_app; reflexivity. Qed.

Lemma count_clause_map_some {A} (sel : change -> option nat) (i : nat)
    (f : A -> change) (g : A -> nat) (l : list A) :
  (forall x, sel (f x) = Some (g x)) -> NoDup (map g l) ->
  count_clause sel i (map f l) = if used i (map g l) then 1 else 0.
Proof.
  intros Hs; unfold count_clause, used.
  induction l as [|x l IH]; simpl; intros Hnd; [reflexivity |].
  apply NoDup_cons_iff in Hnd as [Hx Hnd].
  rewrite Hs, (Nat.eqb_sym i (g x)).
  destruct (Nat.eqb (g x) i) eqn:E; simpl.
  - apply Nat.eqb_eq in E; subst i.
    rewrite IH by exact Hnd.
    destruct (existsb (Nat.eqb (g x)) (map g l)) eqn:U; [| reflexivity].
    exfalso; apply Hx, used_eq, U.
  - apply IH, Hnd.
Qed.

Lemma count_clause_map_none {A} (sel : change -> option nat) (i : nat)
    (f : A -> change) (l : list A) :
  (forall x, sel (f x) = None) -> count_clause sel i (map f l) = 0.
Proof.
  intros Hs; unfold count_clause.
  induction l as [|x l IH]; simpl; [reflexivity |]; rewrite Hs; exact IH.
Qed.

Lemma count_clause_map_same (sel : change -> option nat) (i : nat)
    (f : change -> change) (l : list change) :
  (forall c, sel (f c) = sel c) ->
  count_clause sel i (map f l) = count_clause sel i l.
Proof.
  intros Hs; unfold count_clause.
  induction l as [|c l IH]; simpl; [reflexivity |]; rewrite Hs.
  destruct (sel c); [destruct (Nat.eqb _ _); simpl |]; rewrite ?IH; reflexivity.
Qed.

Lemma used_filter_seq (P : nat -> bool) (i n : nat) :
  used i (filter P (seq 0 n)) = Nat.ltb i n && P i.
Proof.
  destruct (used i _) eqn:U; symmetry.
  - apply used_eq, filter_In in U as [Hi HP]; apply in_seq in Hi.
    rewrite HP, andb_true_r; apply Nat.ltb_lt; lia.
  - destruct (Nat.ltb i n) eqn:L; [| reflexivity].
    destruct (P i) eqn:HP; [| reflexivity].
    apply Nat.ltb_lt in L.
    assert (H : used i (filter P (seq 0 n)) = true)
      by (apply used_eq, filter_In; split; [apply in_seq; lia | exact HP]).
    congruence.
Qed.

Lemma nodup_filter_seq (P : nat -> bool) (n : nat) :
  NoDup (map (fun i => i) (filter P (seq 0 n))).
Proof. rewrite map_id; apply NoDup_filter, seq_NoDup. Qed.

Lemma in_combine_seq {A} (l : list A) (k i : nat) (a : A) :
  In (i, a) (combine (seq k (List.length l)) l) <->
  k <= i /\ nth_error l (i - k) = Some a.
Proof.
  revert k; induction l as [|x l IH]; intros k; simpl.
  - split; [tauto |]; intros [Hk Hn]; destruct (i - k); discriminate.
  - rewrite IH; split.
    + intros [E|[Hk Hn]].
      * injection E as <- <-; rewrite Nat.sub_diag; auto.
      * split; [lia |]; replace (i - k) with (S (i - S k)) by lia; exact Hn.
    + intros [Hk Hn].
      destruct (Nat.eq_dec i k) as [->|Hne].
      * rewrite Nat.sub_diag in Hn; injection Hn as ->; auto.
      * right; split; [lia |]; replace (i - k) with (S (i - S k)) in Hn by lia;
        exact Hn.
Qed.

Lemma in_indexed {A} (l : list A) (i : nat) (a : A) :
  In (i, a) (indexed l) <-> nth_error l i = Some a.
Proof.
  unfold indexed; rewrite in_combine_seq, Nat.sub_0_r; split; [tauto |].
  intros H; split; [lia | exact H].
Qed.

Lemma in_pairs (from to : list clause) i a j b :
  In ((i, a), (j, b)) (pairs from to) <->
  nth_error from i = Some a /\ nth_error to j = Some b.
Proof.
  unfold pairs; rewrite in_flat_map; split.
  - intros [[i' a'] [Hi Hin]]; apply in_map_iff in Hin as [[j' b'] [E Hj]].
    injection E as -> -> -> ->; rewrite <- !in_indexed; auto.
  - intros [Hi Hj]; exists (i, a); split; [apply in_indexed; exact Hi |].
    apply in_map_iff; exists (j, b); split; [reflexivity | apply in_indexed; exact Hj].
Qed.

Section Detector.

Variable text_hash : string -> string.
Variable similarity : clause -> clause -> Q.
Variable vocab_disjoint : clause -> clause -> bool.
Variables match_threshold modified_threshold : Q.

Local Abbreviation exact_cands' := (exact_cands text_hash).
Local Abbreviation similar_cands' :=
  (similar_cands text_hash similarity vocab_disjoint match_threshold).
Local Abbreviation matches' :=
  (matches text_hash similarity vocab_disjoint match_threshold).
Local Abbreviation detect' :=
  (detect text_hash similarity vocab_disjoint match_threshold modified_threshold).

Lemma exact_cands_spec (from to : list clause) (c : cand) :
  In c (exact_cands' from to) <->
  exists a b, nth_error from (c_from c) = Some a
              /\ nth_error to (c_to c) = Some b
              /\ exact_match text_hash a b = true
              /\ c = {| c_from := c_from c; c_to := c_to c; c_score := 1;
                        c_exact := true |}.
Proof.
  unfold exact_cands; rewrite in_flat_map; split.
  - intros [[[i a] [j b]] [Hp Hc]]; apply in_pairs in Hp as [Ha Hb].
    destruct (exact_match text_hash a b) eqn:E; simpl in Hc; [| contradiction].
    destruct Hc as [<-|[]]; simpl; eauto 6.
  - intros [a [b [Ha [Hb [E Hc]]]]].
    exists ((c_from c, a), (c_to c, b)); split; [apply in_pairs; auto |].
    rewrite E; simpl; auto.
Qed.

Lemma similar_cands_bounds (from to : list clause) (c : cand) :
  In c (similar_cands' from to) ->
  c_exact c = false
  /\ exists a b, nth_error from (c_from c) = Some a
                 /\ nth_error to (c_to c) = Some b.
Proof.
  unfold similar_cands; rewrite in_flat_map.
  intros [[[i a] [j b]] [Hp Hc]]; apply in_pairs in Hp as [Ha Hb].
  destruct (_ || _); simpl in Hc; [contradiction |].
  destruct (negb _); simpl in Hc; [| contradiction].
  destruct Hc as [<-|[]]; simpl; eauto.
Qed.

Lemma matches_bounds (from to : list clause) (m : cand) :
  In m (matches' from to) ->
  c_from m < List.length from /\ c_to m < List.length to.
Proof.
  unfold matches; intros H; apply greedy_origin in H as [[]|H].
  apply in_app_or in H as [H|H]; apply in_isort in H.
  - apply exact_cands_spec in H as [a [b [Ha [Hb _]]]].
    split; apply nth_error_Some; congruence.
  - apply similar_cands_bounds in H as [_ [a [b [Ha Hb]]]].
    split; apply nth_error_Some; congruence.
Qed.

Lemma matches_nodup (from to : list clause) :
  NoDup (map c_from (matches' from to)) /\ NoDup (map c_to (matches' from to)).
Proof. apply greedy_nodup; constructor. Qed.

Lemma detect_count_from (from to : list clause) (i : nat) :
  count_clause from_clause i (detect' from to)
  = if Nat.ltb i (List.length from) then 1 else 0.
Proof.
  unfold detect; rewrite !count_clause_app.
  destruct (matches_nodup from to) as [Hf Ht].
  rewrite (count_clause_map_some _ _ _ c_from) by (reflexivity || exact Hf).
  rewrite (count_clause_map_some _ _ removed_change (fun k => k))
    by (reflexivity || apply nodup_filter_seq).
  rewrite (count_clause_map_none _ _ added_change) by reflexivity.
  rewrite map_id, used_filter_seq.
  destruct (used i (map c_from (matches' from to))) eqn:U; simpl.
  - apply used_eq, in_map_iff in U as [m [<- Hm]].
    apply matches_bounds in Hm as [Hm _].
    apply Nat.ltb_lt in Hm; rewrite Hm; reflexivity.
  - destruct (Nat.ltb i _); reflexivity.
Qed.

Lemma detect_count_to (from to : list clause) (j : nat) :
  count_clause to_clause j (detect' from to)
  = if Nat.ltb j (List.length to) then 1 else 0.
Proof.
  unfold detect; rewrite !count_clause_app.
  destruct (matches_nodup from to) as [Hf Ht].
  rewrite (count_clause_map_some _ _ _ c_to) by (reflexivity || exact Ht).
  rewrite (count_clause_map_none _ _ removed_change) by reflexivity.
  rewrite (count_clause_map_some _ _ added_change (fun k => k))
    by (reflexivity || apply nodup_filter_seq).
  rewrite map_id, used_filter_seq.
  destruct (used j (map c_to (matches' from to))) eqn:U; simpl.
  - apply used_eq, in_map_iff in U as [m [<- Hm]].
    apply matches_bounds in Hm as [_ Hm].
    apply Nat.ltb_lt in Hm; rewrite Hm; reflexivity.
  - destruct (Nat.ltb j _); reflexivity.
Qed.

Variable base_weight : option Category -> Q.
Variable type_multiplier : ChangeType -> Q.
Variable explain :
  option Category -> ChangeType -> string -> string -> RiskLevel -> result string.

Local Abbreviation compare_versions' :=
  (compare_versions text_hash similarity vocab_disjoint match_threshold
     modified_threshold base_weight type_multiplier explain).

Lemma score_change_clauses (from to : list clause) (c : change) :
  from_clause (score_change base_weight type_multiplier explain from to c)
  = from_clause c
  /\ to_clause (score_change base_weight type_multiplier explain from to c)
  = to_clause c.
Proof.
  unfold score_change.
  destruct (classify_risk _ _ _ _ _) as [[s l]|]; split; reflexivity.
Qed.

(** C1: for any clause sequences [from] (length m) and [to] (length n),
    every clause of [from] and every clause of [to] is referred to by
    exactly one change of the comparison, and no change refers to a
    clause that does not exist. *)
Theorem compare_versions_covers_each_clause_once (from to : list clause) (i : nat) :
  count_clause from_clause i (compare_versions' from to)
  = (if Nat.ltb i (List.length from) then 1 else 0)
  /\ count_clause to_clause i (compare_versions' from to)
  = (if Nat.ltb i (List.length to) then 1 else 0).
Proof.
  unfold compare_versions; destruct from as [|a from'].
  - split; [apply detect_count_from | apply detect_count_to].
  - rewrite !count_clause_map_same
      by (intros c; apply score_change_clauses).
    split; [apply detect_count_from | apply detect_count_to].
Qed.

Lemma score_change_unchanged (from to : list clause) (c : change) :
  change_type c = unchanged ->
  score_change base_weight type_multiplier explain from to c = c.
Proof. intros E; unfold score_change, classify_risk; rewrite E; reflexivity. Qed.

(** C3 (amended): a clause of [from] and a clause of [to] with identical
    text, whose text hash no other clause of either version shares, are
    aligned with each other, classified unchanged with similarity 1,
    wherever they sit in their sequences; but unchanged is not one of the
    change types the API declares for a Change record. *)
Theorem identical_clause_unchanged (from to : list clause) (i j : nat)
    (a b : clause)
    (Ha : nth_error from i = Some a) (Hb : nth_error to j = Some b)
    (Htext : text a = text b)
    (Huniq_from : forall i' a', nth_error from i' = Some a' ->
                  text_hash (text a') = text_hash (text a) -> i' = i)
    (Huniq_to : forall j' b', nth_error to j' = Some b' ->
                text_hash (text b') = text_hash (text b) -> j' = j) :
  (exists c, In c (compare_versions' from to)
             /\ from_clause c = Some i /\ to_clause c = Some j
             /\ change_type c = unchanged /\ similarity_score c = 1%Q)
  /\ ~ In "unchanged" ApiTypes.api_change_types.
Proof.
  split; [| simpl; intuition discriminate].
  set (x := {| c_from := i; c_to := j; c_score := 1; c_exact := true |}).
  assert (Hm : In x (matches' from to)).
  { unfold matches; rewrite greedy_app; apply greedy_keeps.
    apply greedy_accepts; [| | intros y []].
    - apply in_isort, exact_cands_spec; exists a, b; simpl.
      repeat split; auto.
      unfold exact_match; rewrite Htext; apply String.eqb_refl.
    - intros y Hy Hc; apply in_isort, exact_cands_spec in Hy
        as [a' [b' [Ha' [Hb' [E Hy]]]]].
      apply String.eqb_eq in E.
      rewrite Hy; unfold x; simpl in Hc |- *.
      destruct Hc as [Hc|Hc]; rewrite Hc in *.
      + rewrite Ha in Ha'; injection Ha' as <-.
        rewrite (Huniq_to _ _ Hb'); [reflexivity |].
        rewrite <- E, Htext; reflexivity.
      + rewrite Hb in Hb'; injection Hb' as <-.
        rewrite (Huniq_from _ _ Ha'); [reflexivity |].
        rewrite E, Htext; reflexivity. }
  exists (match_change modified_threshold x).
  assert (Hd : In (match_change modified_threshold x) (detect' from to))
    by (unfold detect; apply in_or_app; left; apply in_map, Hm).
  repeat split; try reflexivity.
  unfold compare_versions; destruct from as [|a0 from'];
    [destruct i; discriminate | ].
  rewrite <- (score_change_unchanged (a0 :: from') to
                (match_change modified_threshold x)) by reflexivity.
  apply in_map, Hd.
Qed.

(** C2: the Risk Classifier scores every change other than unchanged with
    an integer risk score in 0-100, and its risk level is given by the
    bands below 40 low, 40-69 medium, 70-89 high, from 90 critical. *)
Theorem classify_risk_bands (cat : option Category) (ct : ChangeType) (sim : Q)
    (Hct : ct <> unchanged) :
  exists s lvl,
    classify_risk base_weight type_multiplier cat ct sim = Some (s, lvl)
    /\ (0 <= s <= 100)%Z
    /\ ((s < 40)%Z -> lvl = low)
    /\ ((40 <= s < 70)%Z -> lvl = medium)
    /\ ((70 <= s < 90)%Z -> lvl = high)
    /\ ((90 <= s)%Z -> lvl = critical).
Proof.
  remember (risk_score_of base_weight type_multiplier cat ct sim) as s eqn:Hs.
  exists s, (risk_level_of s).
  split.
  { unfold classify_risk; rewrite <- Hs; destruct ct; congruence. }
  split.
  { rewrite Hs; unfold risk_score_of, clamp_score; lia. }
  unfold risk_level_of.
  repeat split; intros H;
    destruct (Z.ltb_spec s 40), (Z.ltb_spec s 70), (Z.ltb_spec s 90);
    solve [reflexivity | lia].
Qed.

Lemma risk_score_of_antitone (cat : option Category) (ct : ChangeType)
    (sim1 sim2 : Q) :
  (sim1 <= sim2)%Q -> (sim2 <= 1)%Q ->
  (risk_score_of base_weight type_multiplier cat ct sim2
   <= risk_score_of base_weight type_multiplier cat ct sim1)%Z.
Proof.
  intros Hle Hone; unfold risk_score_of, clamp_score.
  set (k := (base_weight cat * type_multiplier ct)%Q).
  destruct (Qlt_le_dec k 0) as [Hk|Hk].
  - assert (H2 : (k * (1 - sim2) <= 0)%Q).
    { setoid_replace (k * (1 - sim2))%Q with (- ((- k) * (1 - sim2)))%Q by ring.
      setoid_replace 0%Q with (- 0)%Q by reflexivity.
      apply Qopp_le_compat, Qmult_le_0_compat.
      - setoid_replace 0%Q with (- 0)%Q by reflexivity.
        apply Qopp_le_compat, Qlt_le_weak, Hk.
      - setoid_replace 0%Q with (1 - 1)%Q by reflexivity.
        apply Qplus_le_compat; [apply Qle_refl | apply Qopp_le_compat, Hone]. }
    apply Qfloor_resp_le in H2; change (Qfloor 0) with 0%Z in H2; lia.
  - assert (H : (k * (1 - sim2) <= k * (1 - sim1))%Q).
    { rewrite (Qmult_comm k (1 - sim2)), (Qmult_comm k (1 - sim1)).
      apply Qmult_le_compat_r; [| exact Hk].
      apply Qplus_le_compat; [apply Qle_refl | apply Qopp_le_compat, Hle]. }
    apply Qfloor_resp_le in H; lia.
Qed.

(** C4: for a fixed category and change type, and similarity scores in
    the range of the data model (at most 1), a smaller similarity score
    never gets a smaller risk score. *)
Theorem risk_score_antitone (cat : option Category) (ct : ChangeType)
    (sim1 sim2 : Q) (s1 s2 : Z) (l1 l2 : RiskLevel)
    (Hle : (sim1 <= sim2)%Q) (Hone : (sim2 <= 1)%Q)
    (H1 : classify_risk base_weight type_multiplier cat ct sim1 = Some (s1, l1))
    (H2 : classify_risk base_weight type_multiplier cat ct sim2 = Some (s2, l2)) :
  (s2 <= s1)%Z.
Proof.
  unfold classify_risk in H1, H2.
  destruct ct; try discriminate;
    injection H1 as <- _; injection H2 as <- _;
    apply risk_score_of_antitone; assumption.
Qed.

Lemma filter_unused_all (l : list nat) :
  filter (fun j => negb (used j [])) l = l.
Proof.
  induction l as [|x l IH]; [reflexivity |].
  change (x :: filter (fun j => negb (used j [])) l = x :: l).
  rewrite IH; reflexivity.
Qed.

(** C5: comparing an empty [from] sequence with any [to] sequence yields
    exactly one added change per [to] clause and nothing else, and no
    change is risk-scored (no score, level or explanation). *)
Theorem first_version_all_added (to : list clause) :
  compare_versions' [] to = map added_change (seq 0 (List.length to))
  /\ Forall (fun c => change_type c = added /\ risk_score c = None
                      /\ risk_level c = None /\ explanation c = None)
            (compare_versions' [] to).
Proof.
  assert (E : compare_versions' [] to = map added_change (seq 0 (List.length to))).
  { unfold compare_versions, detect, matches; simpl.
    rewrite filter_unused_all; reflexivity. }
  split; [exact E |].
  rewrite E; apply Forall_map, Forall_forall; intros j _; repeat split.
Qed.

Variable max_size : nat.
Variable normalize_text : SourceKind -> string -> string.
Variable segment_by_headings : string -> result (list clause).
Variable segment_paragraphs : string -> list clause.

Local Abbreviation process' :=
  (process text_hash similarity vocab_disjoint match_threshold
     modified_threshold base_weight type_multiplier explain max_size
     normalize_text segment_by_headings segment_paragraphs).

Lemma normalize_error (d : Document) (e : PipelineError) :
  normalize max_size normalize_text d = inr e ->
  (exists reason, e = ExtractionError reason)
  /\ extractable max_size d = false.
Proof.
  unfold normalize, extractable.
  destruct (payload d) as [raw|]; [| intros H; injection H as <-; eauto].
  destruct (Nat.eqb (String.length raw) 0);
    [intros H; injection H as <-; eauto |].
  destruct (Nat.ltb_spec max_size (String.length raw)) as [L|L];
    intros H; [injection H as <- | discriminate].
  split; [eauto |].
  destruct (Nat.leb_spec (String.length raw) max_size); [lia | reflexivity].
Qed.

Lemma normalize_ok (d : Document) :
  extractable max_size d = true ->
  exists t, normalize max_size normalize_text d = inl t.
Proof.
  unfold normalize, extractable.
  destruct (payload d) as [raw|]; [| discriminate].
  intros H; apply andb_true_iff in H as [H1 H2].
  apply negb_true_iff in H1; rewrite H1.
  apply Nat.leb_le in H2.
  destruct (Nat.ltb_spec max_size (String.length raw)); [lia | eexists; reflexivity].
Qed.

(** C7: the only error the pipeline propagates is an ExtractionError, and
    only when one of the two documents is unreadable, empty or over the
    size ceiling; otherwise it produces a change list (segmentation
    trouble falls back to paragraph segmentation inside [segment]). A
    scored change keeps its score and level when the explanation service
    fails, with an empty explanation. *)
Theorem process_only_extraction_errors (d_from d_to : Document) :
  (forall e, process' d_from d_to = inr e ->
     (exists reason, e = ExtractionError reason)
     /\ (extractable max_size d_from = false
         \/ extractable max_size d_to = false))
  /\ (extractable max_size d_from = true -> extractable max_size d_to = true ->
      exists cs, process' d_from d_to = inl cs)
  /\ (forall from to c,
        change_type c <> unchanged ->
        (forall cat ct o n l, exists e, explain cat ct o n l = inr e) ->
        let c' := score_change base_weight type_multiplier explain from to c in
        (exists s l, risk_score c' = Some s /\ risk_level c' = Some l)
        /\ explanation c' = None).
Proof.
  split; [| split].
  - intros e; unfold process, bind.
    destruct (normalize max_size normalize_text d_from) as [tf|e1] eqn:N1.
    + destruct (normalize max_size normalize_text d_to) as [tt|e2] eqn:N2;
        intros H; [discriminate |].
      injection H as <-; apply normalize_error in N2 as [? ?]; auto.
    + intros H; injection H as <-; apply normalize_error in N1 as [? ?]; auto.
  - intros H1 H2; unfold process, bind.
    destruct (normalize_ok _ H1) as [tf ->]; destruct (normalize_ok _ H2) as [tt ->].
    eexists; reflexivity.
  - intros from to c Hct Hfail; simpl.
    unfold score_change, classify_risk.
    destruct (change_type c); try congruence;
      match goal with
      | |- context [explain ?cat ?ct ?o ?n ?l] =>
          destruct (Hfail cat ct o n l) as [e ->]
      end; simpl; split; eauto.
Qed.

End Detector.

(** ** Concrete runs and witnesses on the sample configuration *)

Module S := SampleConfig.

Example compare_moved_clause :
  map change_type
    (S.compare [S.liability_cap] [S.termination_notice; S.liability_cap_moved])
  = [unchanged; added].
Proof. vm_compute. reflexivity. Qed.

Example compare_removed_liability :
  map (fun c => (change_type c, risk_level c))
    (S.compare [S.liability_cap; S.termination_notice] [S.termination_notice])
  = [(unchanged, None); (removed, Some critical)].
Proof. vm_compute. reflexivity. Qed.

(** Witness of C2: a removed liability clause is scored 100, critical. *)
Lemma classify_risk_bands_witness :
  removed <> unchanged
  /\ classify_risk S.base_weight S.type_multiplier (Some liability) removed 0
     = Some (100%Z, critical)
  /\ (0 <= 100 <= 100)%Z.
Proof.
  assert (Hct : removed <> unchanged) by discriminate.
  split; [exact Hct |]; split; [reflexivity |].
  destruct (classify_risk_bands S.base_weight S.type_multiplier (Some liability)
              removed 0 Hct) as [s [lvl [E [B _]]]].
  assert (Hs : s = 100%Z) by (vm_compute in E; congruence).
  rewrite Hs in B; exact B.
Defined.

(** Witness of C3: a liability clause moved from position 0 to position 1. *)
Lemma identical_clause_unchanged_witness :
  exists c, In c (S.compare [S.liability_cap] [S.termination_notice; S.liability_cap_moved])
            /\ from_clause c = Some 0 /\ to_clause c = Some 1
            /\ change_type c = unchanged /\ similarity_score c = 1%Q.
Proof.
  refine (proj1 (identical_clause_unchanged S.hash S.similarity S.vocab_disjoint
            S.match_threshold S.modified_threshold S.base_weight S.type_multiplier
            S.explain [S.liability_cap] [S.termination_notice; S.liability_cap_moved]
            0 1 S.liability_cap S.liability_cap_moved eq_refl eq_refl eq_refl _ _)).
  - intros [|[|i']] a' H E; [reflexivity | discriminate | destruct i'; discriminate].
  - intros [|[|j']] b' H E; [| reflexivity | destruct j'; discriminate].
    injection H as <-; vm_compute in E; discriminate.
Defined.

(** C3 (counterexample): unchanged is not a declared change type of a
    Change record; and comparing [liability_cap] alone against
    [liability_cap] followed by a second clause of the same text, that
    second copy is reported as added, not unchanged. *)
Lemma identical_text_not_unchanged_counterexample :
  ~ In "unchanged" ApiTypes.api_change_types
  /\ text S.liability_cap_moved = text S.liability_cap
  /\ map (fun c => (to_clause c, change_type c))
       (S.compare [S.liability_cap] [S.liability_cap; S.liability_cap_moved])
     = [(Some 0, unchanged); (Some 1, added)].
Proof.
  split; [simpl; intuition discriminate |].
  split; [reflexivity |].
  vm_compute; reflexivity.
Qed.

(** Witness of C4: a rewritten termination clause at similarity 1/2 and 0. *)
Lemma risk_score_antitone_witness :
  classify_risk S.base_weight S.type_multiplier (Some termination) rewritten 0
  = Some (100%Z, critical)
  /\ classify_risk S.base_weight S.type_multiplier (Some termination) rewritten (1 # 2)
  = Some (75%Z, high)
  /\ (75 <= 100)%Z.
Proof.
  assert (H1 : classify_risk S.base_weight S.type_multiplier (Some termination)
                 rewritten 0 = Some (100%Z, critical)) by reflexivity.
  assert (H2 : classify_risk S.base_weight S.type_multiplier (Some termination)
                 rewritten (1 # 2) = Some (75%Z, high)) by reflexivity.
  split; [exact H1 |]; split; [exact H2 |].
  exact (risk_score_antitone S.base_weight S.type_multiplier (Some termination)
           rewritten 0 (1 # 2) 100 75 critical high
           (proj1 (Qle_bool_iff 0 (1 # 2)) eq_refl)
           (proj1 (Qle_bool_iff (1 # 2) 1) eq_refl)
           H1 H2).
Defined.

Example process_sample :
  exists cs,
    process S.hash S.similarity S.vocab_disjoint S.match_threshold
      S.modified_threshold S.base_weight S.type_multiplier S.explain S.max_size
      S.normalize_text S.segment_by_headings S.segment_paragraphs
      {| source_type := plain_text; payload := Some "Old terms." |}
      {| source_type := plain_text; payload := Some "New terms." |}
    = inl cs
    /\ map change_type cs = [rewritten].
Proof. eexists; split; [reflexivity | vm_compute; reflexivity]. Qed.

Example process_empty_rejected :
  process S.hash S.similarity S.vocab_disjoint S.match_threshold
    S.modified_threshold S.base_weight S.type_multiplier S.explain S.max_size
    S.normalize_text S.segment_by_headings S.segment_paragraphs
    {| source_type := plain_text; payload := Some "" |}
    {| source_type := pdf; payload := None |}
  = inr (ExtractionError "empty").
Proof. reflexivity. Qed.

End DriftFacts.

Module ApiRequestFacts.
Import ApiClient ApiRequest.
Local Open Scope nat_scope.
Local Open Scope string_scope.

Lemma str_app_assoc (a b c : string) : (a ++ b) ++ c = a ++ b ++ c.
Proof. induction a as [|x a IH]; simpl; [reflexivity | now rewrite IH]. Qed.

Lemma str_app_nil_r (a : string) : a ++ "" = a.
Proof. induction a as [|x a IH]; simpl; [reflexivity | now rewrite IH]. Qed.

Lemma plus_to_space_app (a b : string) :
  plus_to_space (a ++ b) = plus_to_space a ++ plus_to_space b.
Proof. induction a as [|x a IH]; simpl; [reflexivity | now rewrite IH]. Qed.

Lemma has_char_app (x : ascii) (a b : string) :
  has_char x (a ++ b) = has_char x a || has_char x b.
Proof.
  induction a as [|y a IH]; simpl; [reflexivity |].
  rewrite IH; apply orb_assoc.
Qed.

(** Decoding undoes the encoding of one byte, whatever follows it. *)
Lemma decode_form_byte (c : ascii) (rest : string) :
  percent_decode (plus_to_space (form_byte c) ++ rest)
  = String c (percent_decode rest).
Proof.
  destruct c as [[] [] [] [] [] [] [] []]; reflexivity.
Qed.

Lemma form_decode_encode (s : string) : form_decode (form_encode s) = s.
Proof.
  unfold form_decode.
  induction s as [|c s IH]; [reflexivity |].
  simpl form_encode; rewrite plus_to_space_app, decode_form_byte, IH.
  reflexivity.
Qed.

Lemma form_byte_no_amp (c : ascii) : has_char "&"%char (form_byte c) = false.
Proof. destruct c as [[] [] [] [] [] [] [] []]; reflexivity. Qed.

Lemma form_byte_no_eq (c : ascii) : has_char "="%char (form_byte c) = false.
Proof. destruct c as [[] [] [] [] [] [] [] []]; reflexivity. Qed.

Lemma form_encode_no_char (x : ascii) (s : string)
    (Hx : forall c, has_char x (form_byte c) = false) :
  has_char x (form_encode s) = false.
Proof.
  induction s as [|c s IH]; [reflexivity |].
  simpl form_encode; rewrite has_char_app, Hx, IH; reflexivity.
Qed.

Lemma split_on_no_sep (sep : ascii) (w : string) :
  has_char sep w = false -> split_on sep w = [w].
Proof.
  induction w as [|c w IH]; simpl; [reflexivity |].
  intros H; apply orb_false_iff in H as [Hc Hw].
  rewrite Hc, (IH Hw); reflexivity.
Qed.

Lemma split_on_sep (sep : ascii) (w r : string) :
  has_char sep w = false ->
  split_on sep (w ++ String sep r) = w :: split_on sep r.
Proof.
  induction w as [|c w IH]; simpl; intros H.
  - rewrite Ascii.eqb_refl; reflexivity.
  - apply orb_false_iff in H as [Hc Hw].
    rewrite Hc, (IH Hw); reflexivity.
Qed.

Lemma split_on_concat (sep : ascii) (l : list string) :
  l <> [] -> Forall (fun w => has_char sep w = false) l ->
  split_on sep (String.concat (String sep EmptyString) l) = l.
Proof.
  induction l as [|w l IH]; intros Hne Hl; [congruence |].
  inversion Hl as [|? ? Hw Hl']; subst.
  destruct l as [|w' l].
  - simpl; apply split_on_no_sep; exact Hw.
  - change (String.concat (String sep EmptyString) (w :: w' :: l))
      with (w ++ String sep EmptyString ++ String.concat (String sep EmptyString) (w' :: l)).
    simpl (String sep EmptyString ++ _).
    rewrite split_on_sep by exact Hw.
    f_equal; apply IH; [discriminate | exact Hl'].
Qed.

Lemma break_at_eq (a b : string) :
  has_char "="%char a = false -> break_at "="%char (a ++ String "="%char b) = (a, Some b).
Proof.
  induction a as [|c a IH]; simpl; intros H; [reflexivity |].
  apply orb_false_iff in H as [Hc Ha].
  rewrite Hc, (IH Ha); reflexivity.
Qed.

Lemma parse_serialize (kv : string * string) : parse_pair (serialize_pair kv) = kv.
Proof.
  destruct kv as [k v]; unfold parse_pair, serialize_pair; simpl fst; simpl snd.
  change ("=" ++ form_encode v) with (String "="%char (form_encode v)).
  rewrite break_at_eq by (apply form_encode_no_char, form_byte_no_eq).
  rewrite !form_decode_encode; reflexivity.
Qed.

Lemma serialize_pair_no_amp (kv : string * string) :
  has_char "&"%char (serialize_pair kv) = false.
Proof.
  unfold serialize_pair; rewrite !has_char_app.
  rewrite !form_encode_no_char by apply form_byte_no_amp; reflexivity.
Qed.

Lemma serialize_pair_nonempty (kv : string * string) : serialize_pair kv <> "".
Proof.
  unfold serialize_pair; destruct (form_encode (fst kv)); discriminate.
Qed.

Lemma filter_all {A} (f : A -> bool) (l : list A) :
  (forall x, In x l -> f x = true) -> filter f l = l.
Proof.
  induction l as [|x l IH]; simpl; intros H; [reflexivity |].
  rewrite (H x (or_introl eq_refl)), IH; auto.
Qed.

(** The query string parses back to exactly the kept pairs: names and
    values, in order, whatever bytes they contain. *)
Theorem query_string_round_trip (ps : list (string * param)) :
  parse_query (query_string ps) = kept_params ps.
Proof.
  unfold parse_query, query_string.
  destruct (kept_params ps) as [|kv l] eqn:E; [reflexivity |].
  rewrite split_on_concat.
  - rewrite filter_all.
    + rewrite map_map; erewrite map_ext; [apply map_id |].
      apply parse_serialize.
    + intros w Hw; apply in_map_iff in Hw as [kv' [<- _]].
      apply negb_true_iff, String.eqb_neq, serialize_pair_nonempty.
  - discriminate.
  - apply Forall_forall; intros w Hw; apply in_map_iff in Hw as [kv' [<- _]].
    apply serialize_pair_no_amp.
Qed.






Lemma query_string_nonempty (ps : list (string * param)) :
  kept_params ps <> [] -> query_string ps <> "".
Proof.
  unfold query_string; destruct (kept_params ps) as [|kv [|kv' l]]; intros H;
    [congruence | | ]; simpl.
  - apply serialize_pair_nonempty.
  - unfold serialize_pair; destruct (form_encode (fst kv)); discriminate.
Qed.

(** Query building: the pairs kept are those whose value is neither
    undefined nor null; when none is kept the URL is the bare endpoint
    with no [?], otherwise [?] and the query string follow it. *)
Theorem request_url_query (base endpoint : string) (ps : list (string * param)) :
  (kept_params ps = [] <-> Forall (fun kv => param_value (snd kv) = None) ps)
  /\ (kept_params ps = [] -> request_url base endpoint (Some ps) = base ++ endpoint)
  /\ (kept_params ps <> [] ->
      request_url base endpoint (Some ps) = base ++ endpoint ++ "?" ++ query_string ps).
Proof.
  split; [| split].
  - induction ps as [|[k v] ps IH]; simpl; [split; auto |].
    destruct (param_value v) eqn:E; split; intros H.
    + discriminate.
    + inversion H as [|? ? Hv]; simpl in Hv; congruence.
    + constructor; [exact E | apply IH, H].
    + inversion H; apply IH; assumption.
  - intros H; unfold request_url, query_string; rewrite H; reflexivity.
  - intros H; unfold request_url.
    apply query_string_nonempty, String.eqb_neq in H; rewrite H.
    apply str_app_assoc.
Qed.

Lemma get_prop_set {V} (k k' : string) (v : V) (o : list (string * V)) :
  get_prop k (set_prop k' v o) = if String.eqb k k' then Some v else get_prop k o.
Proof.
  induction o as [|[k0 v0] o IH]; simpl.
  - reflexivity.
  - destruct (String.eqb k' k0) eqn:E1.
    + apply String.eqb_eq in E1; subst k0; simpl.
      destruct (String.eqb k k'); reflexivity.
    + simpl; destruct (String.eqb k k0) eqn:E2; [| exact IH].
      apply String.eqb_eq in E2; subst k0.
      destruct (String.eqb k k') eqn:E3; [| reflexivity].
      apply String.eqb_eq in E3; subst; rewrite String.eqb_refl in E1; discriminate.
Qed.

Lemma get_prop_absent {V} (k : string) (o : list (string * V)) :
  ~ In k (map fst o) -> get_prop k o = None.
Proof.
  induction o as [|[k' v] o IH]; simpl; intros H; [reflexivity |].
  destruct (String.eqb k k') eqn:E.
  - apply String.eqb_eq in E; subst; tauto.
  - apply IH; tauto.
Qed.

Lemma get_prop_spread {V} (k : string) (o src : list (string * V)) :
  NoDup (map fst src) ->
  get_prop k (spread o src)
  = match get_prop k src with Some v => Some v | None => get_prop k o end.
Proof.
  unfold spread; revert o; induction src as [|[k' v] src IH]; intros o Hnd;
    simpl; [reflexivity |].
  inversion Hnd as [|? ? Hnin Hnd']; subst.
  rewrite IH by exact Hnd'.
  rewrite get_prop_set.
  destruct (String.eqb k k') eqn:E.
  - apply String.eqb_eq in E; subst.
    rewrite get_prop_absent by exact Hnin; reflexivity.
  - destruct (get_prop k src); reflexivity.
Qed.

(** The fetch init: without a [headers] property in the options, the
    headers are exactly [Content-Type: application/json]; with one (even
    undefined), that property replaces the merged object, so the default
    Content-Type is never added to the caller's headers; every other
    option is passed as given. *)
Theorem fetch_init_headers (fo : list (string * init_value))
    (Hkeys : NoDup (map fst fo)) :
  (get_prop "headers" fo = None ->
   get_prop "headers" (fetch_init fo) = Some (IHeaders (Some default_headers)))
  /\ (forall v, get_prop "headers" fo = Some v -> get_prop "headers" (fetch_init fo) = Some v)
  /\ (forall k, k <> "headers" -> get_prop k (fetch_init fo) = get_prop k fo).
Proof.
  unfold fetch_init.
  split; [| split].
  - intros H; rewrite get_prop_spread by exact Hkeys; rewrite H; reflexivity.
  - intros v H; rewrite get_prop_spread by exact Hkeys; rewrite H; reflexivity.
  - intros k Hk; rewrite get_prop_spread by exact Hkeys.
    destruct (get_prop k fo) eqn:E; [reflexivity |]; simpl.
    apply String.eqb_neq in Hk; rewrite Hk; reflexivity.
Qed.

Lemma fetch_init_headers_witness :
  NoDup (map fst [("headers", IHeaders (Some [("X-Trace", "1")])); ("method", IString "PUT")])
  /\ get_prop "headers" (fetch_init [("headers", IHeaders (Some [("X-Trace", "1")]));
                                     ("method", IString "PUT")])
     = Some (IHeaders (Some [("X-Trace", "1")])).
Proof.
  assert (Hnd : NoDup (map fst [("headers", IHeaders (Some [("X-Trace", "1")]));
                               ("method", IString "PUT")])).
  { simpl; constructor; [simpl; intros [H | []]; discriminate | constructor; [auto | constructor]]. }
  split; [exact Hnd |].
  exact (proj1 (proj2 (fetch_init_headers _ Hnd)) _ eq_refl).
Defined.

Lemma request_url_prefix (base endpoint : string) (p : option (list (string * param))) :
  exists q, request_url base endpoint p = base ++ endpoint ++ q.
Proof.
  unfold request_url; destruct p as [ps|].
  - destruct (String.eqb (query_string ps) "").
    + exists ""; rewrite str_app_nil_r; reflexivity.
    + exists ("?" ++ query_string ps); apply str_app_assoc.
  - exists ""; rewrite str_app_nil_r; reflexivity.
Qed.

(** Every wrapper that goes through [apiFetch] requests a URL under
    [API_BASE_URL/api/] and sends exactly the header
    [Content-Type: application/json]. *)
Theorem client_requests_json (env : option string) (c : client_call) :
  sent_headers (snd (client_request env c)) = default_headers
  /\ exists rest, fst (client_request env c) = API_BASE_URL env ++ "/api/" ++ rest.
Proof.
  destruct c; unfold client_request; simpl call_args; unfold request_of;
    simpl params; simpl fetchOptions;
    (split; [reflexivity |]);
    match goal with
    | |- exists _, fst (request_url ?b ?e ?p, _) = _ =>
        destruct (request_url_prefix b e p) as [q Hq]; cbn [fst]; rewrite Hq;
        rewrite ?str_app_assoc; eexists; reflexivity
    end.
Qed.

End ApiRequestFacts.
Module ListPagesFacts.
Import ApiClient ApiRequest ListPages ApiRequestFacts.
Local Open Scope string_scope.





Lemma two_param_url (base endpoint k1 v1 : string) :
  request_url base endpoint (Some [(k1, PString v1); ("limit", PNumber (Num 100))])
  = base ++ endpoint ++ "?" ++ form_encode k1 ++ "=" ++ form_encode v1 ++ "&limit=100".
Proof.
  assert (Hq : query_string [(k1, PString v1); ("limit", PNumber (Num 100))]
               = form_encode k1 ++ "=" ++ form_encode v1 ++ "&limit=100").
  { unfold query_string, serialize_pair; simpl kept_params; cbn [map fst snd].
    unfold String.concat; rewrite !str_app_assoc; reflexivity. }
  unfold request_url; rewrite Hq.
  assert (Hne : String.eqb (form_encode k1 ++ "=" ++ form_encode v1 ++ "&limit=100") ""
                = false).
  { apply String.eqb_neq; destruct (form_encode k1); discriminate. }
  rewrite Hne, str_app_assoc; reflexivity.
Qed.

(** The alerts page's list request: the status filter "all" sends only
    [limit=100]; any other status is sent, form-encoded, before it. *)
Theorem alerts_page_request (env : option string) (status : string) :
  fst (client_request env (alerts_page_call status))
  = API_BASE_URL env ++ "/api/alerts?"
    ++ (if String.eqb status "all" then "" else "status=" ++ form_encode status ++ "&")
    ++ "limit=100".
Proof.
  unfold alerts_page_call; destruct (String.eqb status "all").
  - unfold client_request, call_args, request_of, with_params; cbn [params fst].
    unfold request_url; rewrite str_app_assoc; reflexivity.
  - unfold client_request, call_args, request_of, with_params; cbn [params fst].
    rewrite two_param_url; rewrite !str_app_assoc; reflexivity.
Qed.

(** The contracts page's list request: the type filter "all" sends only
    [limit=100]; any other type is sent, form-encoded, before it. *)
Theorem contracts_page_request (env : option string) (contractType : string) :
  fst (client_request env (contracts_page_call contractType))
  = API_BASE_URL env ++ "/api/contracts?"
    ++ (if String.eqb contractType "all" then ""
        else "contract_type=" ++ form_encode contractType ++ "&")
    ++ "limit=100".
Proof.
  unfold contracts_page_call; destruct (String.eqb contractType "all").
  - unfold client_request, call_args, request_of, with_params; cbn [params fst].
    unfold request_url; rewrite str_app_assoc; reflexivity.
  - unfold client_request, call_args, request_of, with_params; cbn [params fst].
    rewrite two_param_url; rewrite !str_app_assoc; reflexivity.
Qed.

End ListPagesFacts.
Module UploadFacts.
Import ApiClient ApiRequest.
Local Open Scope string_scope.

Example upload_detail_messages :
  upload integer_toString {| status := 400; statusText := "Bad Request";
                             resp_body := BodyJson (VObject [("detail", VNull)]) |}
  = Threw (Error "null")
  /\ upload integer_toString {| status := 400; statusText := "Bad Request";
                                resp_body := BodyJson (VObject [("detail", VNumber 42)]) |}
  = Threw (Error "42")
  /\ upload integer_toString {| status := 400; statusText := "Bad Request";
                                resp_body := BodyJson (VObject []) |}
  = Threw (Error "")
  /\ upload integer_toString {| status := 502; statusText := "Bad Gateway";
                                resp_body := BodyInvalid |}
  = Threw (Error "Upload failed").
Proof. repeat split; vm_compute; reflexivity. Qed.

(** [contractsApi.upload]: a response that is not ok never yields a
    value; a JSON null body throws a TypeError; any other body throws
    [new Error(error.detail)], where [error.detail] is the body's [detail]
    member when the body is a JSON object, undefined for any other JSON
    value, and "Upload failed" for a non-JSON body (so the message is
    String(detail), or empty when the detail is absent); the status text
    is never read; and on an ok response it behaves as [apiFetch] except
    that a 204 is still parsed as JSON. *)
Theorem upload_outcomes (Number_toString : Q -> string) (r : response) :
  (ok r = false -> forall v, upload Number_toString r <> Returned v)
  /\ (ok r = false -> resp_body r = BodyJson VNull ->
      upload Number_toString r = Threw TypeError)
  /\ (ok r = false -> resp_body r <> BodyJson VNull ->
      upload Number_toString r =
      Threw (new_Error Number_toString
               match resp_body r with
               | BodyJson (VObject ms) => member "detail" ms
               | BodyInvalid => Some (VString "Upload failed")
               | _ => None
               end))
  /\ (forall t, upload Number_toString
                  {| status := status r; statusText := t; resp_body := resp_body r |}
                = upload Number_toString r)
  /\ (ok r = true -> status r <> 204%Z -> upload Number_toString r = apiFetch Number_toString r)
  /\ (ok r = true -> status r = 204%Z ->
      apiFetch Number_toString r = Returned None
      /\ upload Number_toString r = match resp_body r with
                                    | BodyJson j => Returned (Some j)
                                    | BodyInvalid => Threw SyntaxError
                                    end).
Proof.
  unfold upload, apiFetch, upload_detail.
  split; [| split; [| split; [| split; [| split]]]].
  - intros Hok v; rewrite Hok; simpl.
    destruct (resp_body r) as [[]|]; discriminate.
  - intros Hok Hb; rewrite Hok, Hb; reflexivity.
  - intros Hok Hnull; rewrite Hok; simpl.
    destruct (resp_body r) as [[]|]; try reflexivity; congruence.
  - intros t; reflexivity.
  - intros Hok H204; rewrite Hok; simpl.
    apply Z.eqb_neq in H204; rewrite H204; reflexivity.
  - intros Hok H204; rewrite Hok, H204; split; reflexivity.
Qed.

End UploadFacts.

Module ModalStateFacts.
Import AddContractModal ModalState.
Local Open Scope string_scope.

Lemma mapped_code (ct : string) :
  In ct contractTypes -> In (apiContractType ct) ["tos"; "privacy"; "sla"; "dpa"; "msa"].
Proof.
  unfold contractTypes; simpl.
  intros H; repeat destruct H as [<- | H]; simpl; auto 6; contradiction.
Qed.

(** When the submit button is shown and enabled and the type comes from
    the select, a click issues a request (never "No file selected"),
    with a non-empty vendor and a mapped code other than "other": a
    creation with a non-empty URL, or an upload of the selected file. *)
Theorem enabled_submit_request (s : modal_state)
    (Hsel : In (m_contractType s) select_options)
    (Hshown : submit_shown s = true) (Hen : submit_disabled s = false) :
  m_vendor s <> ""
  /\ exists ct, In ct ["tos"; "privacy"; "sla"; "dpa"; "msa"]
     /\ ((submit s = CreateContract (m_vendor s) ct (m_url s) /\ m_url s <> "")
         \/ exists f, m_file s = Some f /\ submit s = UploadContract f (m_vendor s) ct).
Proof.
  unfold submit_disabled in Hen.
  repeat rewrite orb_false_iff in Hen.
  destruct Hen as [[[[Hl Hv] Hc] Hm] Hu].
  apply String.eqb_neq in Hv, Hc.
  split; [exact Hv |].
  assert (Hin : In (m_contractType s) contractTypes).
  { destruct Hsel as [H | H]; [congruence | exact H]. }
  exists (apiContractType (m_contractType s)); split; [apply mapped_code, Hin |].
  unfold submit, handleSubmit, submit_shown in *.
  destruct (m_step s); simpl in Hm, Hu; [discriminate | left | right].
  - split; [reflexivity |].
    apply String.eqb_neq; exact Hm.
  - destruct (m_file s) as [f|]; [| discriminate].
    exists f; split; reflexivity.
Qed.

Lemma enabled_submit_request_witness :
  submit {| m_step := upload; m_vendor := "Acme"; m_contractType := "SLA";
            m_file := Some "sla.pdf"; m_url := ""; m_loading := false;
            m_error := false; m_errorMessage := "" |}
  = UploadContract "sla.pdf" "Acme" "sla"
  /\ "Acme" <> "".
Proof.
  split; [reflexivity |].
  exact (proj1 (enabled_submit_request
     {| m_step := upload; m_vendor := "Acme"; m_contractType := "SLA";
        m_file := Some "sla.pdf"; m_url := ""; m_loading := false;
        m_error := false; m_errorMessage := "" |}
     ltac:(simpl; auto 7) eq_refl eq_refl)).
Defined.

(** After [resetForm] the submit button is hidden, and whichever method
    is then chosen it stays disabled until vendor and type are entered
    again; a file change never removes a selected file, so it never
    disables an enabled button. *)
Theorem reset_and_file_change (s : modal_state) :
  submit_shown (resetForm s) = false
  /\ (forall st, submit_disabled (setStep st (resetForm s)) = true)
  /\ (forall files, m_file s <> None -> m_file (handleFileChange files s) <> None)
  /\ (forall files, submit_disabled s = false ->
                    submit_disabled (handleFileChange files s) = false).
Proof.
  split; [reflexivity |].
  split; [intros st; unfold submit_disabled; simpl; apply orb_true_iff; left;
          apply orb_true_iff; left; apply orb_true_iff; left;
          apply orb_true_iff; right; reflexivity |].
  split.
  - intros files Hf; destruct files as [[|f fs]|]; simpl; congruence.
  - intros files Hen; destruct files as [[|f fs]|]; try exact Hen.
    unfold submit_disabled in *; simpl.
    apply orb_false_iff in Hen as [Hen _].
    rewrite andb_false_r, orb_false_r; exact Hen.
Qed.

End ModalStateFacts.

Module VendorPageFacts.
Import VendorPage.
Local Open Scope nat_scope.

Ltac bands :=
  repeat match goal with
         | |- context [Qle_bool ?a ?b] =>
             let E := fresh "E" in destruct (Qle_bool a b) eqn:E
         end.

(** Badge colour, border colour and chart bar of a score always fall in
    the same band (80/60/40). *)
Theorem risk_colors_agree (score : Q) :
  color_rank (getRiskBorderColor score) = color_rank (getRiskColor score)
  /\ color_rank (bar_fill score) = color_rank (getRiskColor score).
Proof.
  unfold getRiskBorderColor, getRiskColor, bar_fill; bands; split; reflexivity.
Qed.

(** The badge colour never gets milder as the score rises. *)
Theorem risk_color_monotone (s1 s2 : Q) (H : (s1 <= s2)%Q) :
  color_rank (getRiskColor s1) <= color_rank (getRiskColor s2).
Proof.
  assert (Hm : forall b, Qle_bool b s1 = true -> Qle_bool b s2 = true).
  { intros b Hb; apply Qle_bool_iff in Hb; apply Qle_bool_iff.
    eapply Qle_trans; eassumption. }
  unfold getRiskColor.
  destruct (Qle_bool 80 s1) eqn:A1, (Qle_bool 60 s1) eqn:A2, (Qle_bool 40 s1) eqn:A3,
    (Qle_bool 80 s2) eqn:B1, (Qle_bool 60 s2) eqn:B2, (Qle_bool 40 s2) eqn:B3;
  first
    [ apply Nat.leb_le; reflexivity
    | match goal with
      | A : Qle_bool ?b s1 = true, B : Qle_bool ?b s2 = false |- _ =>
          rewrite (Hm _ A) in B; discriminate
      end ].
Qed.

Lemma risk_color_monotone_witness :
  (55 <= 85)%Q /\ color_rank (getRiskColor 55) <= color_rank (getRiskColor 85).
Proof.
  assert (H : (55 <= 85)%Q) by (apply Qle_bool_iff; reflexivity).
  split; [exact H | exact (risk_color_monotone 55 85 H)].
Defined.

End VendorPageFacts.

Module AnalyticsPageFacts.
Import AnalyticsPage.

(** [riskData] holds only positive counts, sums to the positive parts of
    the distribution (the whole distribution when no count is negative),
    and is empty exactly when no count is positive. *)
Theorem riskData_total (d : risk_distribution) :
  Forall (fun s => (0 < value s)%Z) (riskData (Some d))
  /\ slice_total (riskData (Some d))
     = (Z.max 0 (critical d) + Z.max 0 (high d) + Z.max 0 (medium d) + Z.max 0 (low d))%Z
  /\ (riskData (Some d) = []
      <-> (critical d <= 0 /\ high d <= 0 /\ medium d <= 0 /\ low d <= 0)%Z).
Proof.
  unfold riskData; simpl.
  destruct (Z.ltb 0 (critical d)) eqn:E1; destruct (Z.ltb 0 (high d)) eqn:E2;
  destruct (Z.ltb 0 (medium d)) eqn:E3; destruct (Z.ltb 0 (low d)) eqn:E4;
  rewrite ?Z.ltb_lt, ?Z.ltb_ge in *; simpl;
  (split; [repeat constructor; simpl; lia |]);
  (split; [lia |]);
  split; intros H; try discriminate; try reflexivity; lia.
Qed.

End AnalyticsPageFacts.

Module ContractsPageFacts.
Import ContractsPage.






Lemma set_add_fold (xs acc : list string) (t : string) :
  (NoDup acc -> NoDup (fold_left set_add xs acc))
  /\ (In t (fold_left set_add xs acc) <-> In t acc \/ In t xs).
Proof.
  revert acc; induction xs as [|x xs IH]; intros acc; simpl.
  - split; [auto | tauto].
  - destruct (IH (set_add acc x)) as [IH1 IH2].
    assert (Hin : forall u, In u (set_add acc x) <-> In u acc \/ u = x).
    { intros u; unfold set_add.
      destruct (existsb (String.eqb x) acc) eqn:E.
      - apply existsb_exists in E as [y [Hy Exy]]; apply String.eqb_eq in Exy; subst y.
        split; [tauto | intros [H | ->]; assumption].
      - rewrite in_app_iff; simpl; intuition. }
    split.
    + intros Hnd; apply IH1; unfold set_add.
      destruct (existsb (String.eqb x) acc) eqn:E; [exact Hnd |].
      apply NoDup_app; [exact Hnd | constructor; [simpl; tauto | constructor] |].
      intros y Hy [-> | []].
      assert (Hx : existsb (String.eqb y) acc = true)
        by (apply existsb_exists; exists y; split; [exact Hy | apply String.eqb_refl]).
      congruence.
    + rewrite IH2, Hin; intuition.
Qed.

(** The type filter options: no duplicates, and exactly the types of the
    loaded contracts. *)
Theorem contract_types_unique (cs : list contract) :
  NoDup (contractTypes (Some cs))
  /\ (forall t, In t (contractTypes (Some cs)) <-> exists c, In c cs /\ contract_type c = t).
Proof.
  simpl; split.
  - apply (proj1 (set_add_fold _ [] "")); constructor.
  - intros t; rewrite (proj2 (set_add_fold _ [] t)), in_map_iff; simpl.
    split; [intros [[] | [c [<- Hc]]]; eauto | intros [c [Hc <-]]; right; eauto].
Qed.

End ContractsPageFacts.
